(** * accent-detector: the keyword classifier and the video pipeline of [app.py]

    A shallow embedding of [simple_accent_classifier], [extract_audio] and
    [process_video], and the properties stated about them.

    - Python [str] values that are scanned (the transcript, the keywords) are
      lists of Unicode code points; [str.lower] belongs to the Python runtime
      and is a parameter of the development.
    - Python [float] is IEEE-754 binary64, computed with the Standard
      Library's [SpecFloat].
    - The external libraries (yt_dlp, moviepy, whisper) and the file system
      are an explicit world that the pipeline threads through its calls. *)

From Stdlib Require Import ZArith List Bool String Ascii Lia.
From Stdlib Require Import SpecFloat DecimalString.
From stdpp Require Import base tactics option list strings gmap.

Local Open Scope string_scope.
Local Open Scope list_scope.
Local Open Scope Z_scope.

#[local] Set Warnings "-clear-no-such-hyp".

(** ** Python strings *)

Module PyStr.

(** A [str] is a sequence of code points. *)
Definition str := list N.

(** The code points of a literal of the source. *)
Definition lit (s : string) : str := map N_of_ascii (list_ascii_of_string s).

(** [s.startswith(w)], the one-position test behind [w in s]. *)
Fixpoint startswith (w s : str) : bool :=
  match w, s with
  | [], _ => true
  | _ :: _, [] => false
  | c :: w', d :: s' => (c =? d)%N && startswith w' s'
  end.

(** [w in s] for strings: [w] occurs in [s] at some position. *)
Fixpoint contains (w s : str) : bool :=
  startswith w s ||
  match s with
  | [] => false
  | _ :: s' => contains w s'
  end.

(** What [w in s] is meant to decide. *)
Definition occurs (w s : str) : Prop := exists pre post, s = pre ++ w ++ post.

(** [str.lower] on the Basic Latin block: [A]..[Z] go to [a]..[z], every
    other code point is kept.  Python's [str.lower] agrees with it on every
    string of code points below 128. *)
Definition lower_cp (c : N) : N :=
  if ((65 <=? c) && (c <=? 90))%N then (c + 32)%N else c.

Definition ascii_lower (s : str) : str := map lower_cp s.

(** [str(n)] for an integer. *)
Definition str_of_int (n : Z) : string := NilZero.string_of_int (Z.to_int n).

End PyStr.

Import PyStr.

(** ** Python floats *)

Module PyFloat.

Definition prec : Z := 53.
Definition emax : Z := 1024.

Definition float := spec_float.

(** [float(n)] for an integer [n]: the nearest binary64 value. *)
Definition of_int (n : Z) : float := binary_normalize prec emax n 0 false.

Definition mul (x y : float) : float := SFmul prec emax x y.

(** Float division; [None] is [ZeroDivisionError]. *)
Definition div (x y : float) : option float :=
  match y with
  | S754_zero _ => None
  | _ => Some (SFdiv prec emax x y)
  end.

(** [int(x)]: truncation toward zero; [None] is the [OverflowError] or
    [ValueError] that [int] raises on an infinity or a NaN. *)
Definition to_int (x : float) : option Z :=
  match x with
  | S754_zero _ => Some 0
  | S754_finite s m e =>
      let a := match e with
               | Zneg p => Z.shiftr (Zpos m) (Zpos p)
               | _ => Z.shiftl (Zpos m) e
               end in
      Some (if s then - a else a)
  | S754_infinity _ | S754_nan => None
  end.

End PyFloat.

(** ** Exceptions and results *)

(** The exceptions are the ones derived from [Exception]; [LibraryError]
    stands for whatever an external library raises.  [KeyboardInterrupt] and
    [SystemExit] are not part of the model. *)
Inductive exn : Type :=
| ZeroDivisionError
| ValueError (msg : string)
| KeyError (key : string)
| TypeError (msg : string)
| FileNotFoundError (path : string)
| RuntimeError (msg : string)
| LibraryError (msg : string).

(** [str(e)], as the f-string [f"Error: {e}"] formats it. *)
Definition exn_message (e : exn) : string :=
  match e with
  | ZeroDivisionError => "division by zero"
  | ValueError msg => msg
  | KeyError key => "'" +:+ key +:+ "'"
  | TypeError msg => msg
  | FileNotFoundError path =>
      "[Errno 2] No such file or directory: '" +:+ path +:+ "'"
  | RuntimeError msg => msg
  | LibraryError msg => msg
  end.

Inductive result (A : Type) : Type :=
| Ok (a : A)
| Raise (e : exn).
Arguments Ok {A} a.
Arguments Raise {A} e.

Definition rbind {A B} (r : result A) (k : A -> result B) : result B :=
  match r with
  | Ok a => k a
  | Raise e => Raise e
  end.

Declare Scope result_scope.
Delimit Scope result_scope with result.
Notation "'let!' x ':=' r 'in' k" := (rbind r (fun x => k))
  (at level 10, x pattern, r at level 100, k at level 200) : result_scope.

(** ** The classifier *)

Module Classifier.

Local Open Scope result_scope.

Definition british_keywords : list str :=
  map lit ["colour"; "favourite"; "realise"; "aluminium"; "lorry"; "biscuit"].
Definition american_keywords : list str :=
  map lit ["color"; "favorite"; "realize"; "aluminum"; "truck"; "cookie"].
Definition australian_keywords : list str :=
  map lit ["mate"; "arvo"; "barbie"; "brekkie"].

(** [sum(word in text for word in keywords)]: [True] adds 1, [False] adds 0,
    starting from 0 and going through the keywords in order. *)
Definition keyword_score (text : str) (keywords : list str) : Z :=
  fold_left (fun acc word => acc + (if contains word text then 1 else 0)) keywords 0.

(** A dict with string keys, in insertion order. *)
Definition dict := list (string * Z).

(** [sum(scores.values())] *)
Definition sum_values (scores : dict) : Z :=
  fold_left (fun acc kv => acc + snd kv) scores 0.

(** [scores.get(k)]: [None] when the key is absent. *)
Fixpoint dict_get (scores : dict) (k : string) : option Z :=
  match scores with
  | [] => None
  | (k', v) :: rest => if String.eqb k k' then Some v else dict_get rest k
  end.

(** [scores[k]] *)
Definition dict_item (scores : dict) (k : string) : result Z :=
  match dict_get scores k with
  | Some v => Ok v
  | None => Raise (KeyError k)
  end.

(** [max(it, key=f)] on the remaining items: the running maximum is
    replaced only by an item whose key is strictly greater, so the first
    of several maximal items is kept. *)
Fixpoint max_loop (key : string -> option Z) (best : string) (best_key : Z)
    (rest : list string) : result string :=
  match rest with
  | [] => Ok best
  | k :: rest' =>
      match key k with
      | None => Raise (TypeError "'>' not supported between 'NoneType' and 'int'")
      | Some v =>
          if best_key <? v then max_loop key k v rest'
          else max_loop key best best_key rest'
      end
  end.

(** [max(scores, key=scores.get)]: iterates the keys in insertion order. *)
Definition max_key (scores : dict) : result string :=
  match map fst scores with
  | [] => Raise (ValueError "max() arg is an empty sequence")
  | k :: rest =>
      match dict_get scores k with
      | None => Raise (TypeError "'>' not supported between 'NoneType' and 'int'")
      | Some v => max_loop (dict_get scores) k v rest
      end
  end.

(** [int(count / total * 100)]: true division of two integers, a float
    product, truncation.  On integers that binary64 holds exactly the true
    division is the float division of the converted operands, correctly
    rounded; [100] is converted before the product. *)
Definition confidence_of (count total : Z) : result Z :=
  match PyFloat.div (PyFloat.of_int count) (PyFloat.of_int total) with
  | None => Raise ZeroDivisionError
  | Some q =>
      match PyFloat.to_int (PyFloat.mul q (PyFloat.of_int 100)) with
      | None => Raise (ValueError "cannot convert float to integer")
      | Some c => Ok c
      end
  end.

(** Whether the float computation gives the integer [100 * count // total]. *)
Definition confidence_exact (count total : Z) : bool :=
  match confidence_of count total with
  | Ok c => c =? 100 * count / total
  | Raise _ => false
  end.

Definition no_accent : string * Z * string :=
  ("No accent detected", 0, "No accent keywords detected in the transcription.").

Definition explanation_of (accent : string) (confidence : Z) : string :=
  "Detected keywords suggest " +:+ accent +:+ " accent with confidence "
    +:+ str_of_int confidence +:+ "%.".

(** The dict [scores] of the source, in the order its literal lists the keys. *)
Definition scores_dict (british_score american_score australian_score : Z) : dict :=
  [("British", british_score); ("American", american_score);
   ("Australian", australian_score)].

(** The body of the classifier from the three scores on. *)
Definition classify_scores (british_score american_score australian_score : Z)
    : result (string * Z * string) :=
  let scores := scores_dict british_score american_score australian_score in
  let total := sum_values scores in
  if total =? 0 then Ok no_accent
  else
    let! accent := max_key scores in
    let! count := dict_item scores accent in
    let! confidence := confidence_of count total in
    Ok (accent, confidence, explanation_of accent confidence).

Section WithLower.

(** [str.lower] of the Python runtime. *)
Variable lower : str -> str.

Definition simple_accent_classifier (text : str) : result (string * Z * string) :=
  let text := lower text in
  let british_score := keyword_score text british_keywords in
  let american_score := keyword_score text american_keywords in
  let australian_score := keyword_score text australian_keywords in
  classify_scores british_score american_score australian_score.

(** The dict [scores] that a call builds for [text]. *)
Definition scores_of (text : str) : dict :=
  scores_dict (keyword_score (lower text) british_keywords)
              (keyword_score (lower text) american_keywords)
              (keyword_score (lower text) australian_keywords).

End WithLower.

(** Every keyword of the three lists, and the label each list scores for. *)
Definition all_keywords : list str :=
  british_keywords ++ american_keywords ++ australian_keywords.

Definition lexicon : list (string * list str) :=
  [("British", british_keywords); ("American", american_keywords);
   ("Australian", australian_keywords)].

(** The label that comes first, in the order British, American, Australian,
    among those with the greatest score. *)
Definition first_maximal_label (b a au : Z) : string :=
  if (a <=? b) && (au <=? b) then "British"
  else if au <=? a then "American"
  else "Australian".

End Classifier.

Import Classifier.

(** ** The world of the pipeline *)

Module Pipeline.

(** What a run can observe and change outside its own variables. *)
Record World : Type := mkWorld {
  files : gset string;        (* the paths for which [os.path.exists] holds *)
  open_clips : list string;   (* [VideoFileClip] objects opened and not yet closed *)
  reported : list string;     (* the messages given to [st.error], oldest first *)
}.

(** The external libraries.  Every call sees the file system, may change it
    and may raise; a call that raises may still have changed it. *)
Record Env : Type := mkEnv {
  (* [ydl.download([url])] with ['outtmpl': out_file] *)
  ydl_download : str -> string -> gset string -> gset string * result unit;
  (* [VideoFileClip(video_file)]; the value is [clip.audio is not None] *)
  clip_open : string -> gset string -> gset string * result bool;
  (* [clip.audio.write_audiofile(audio_file)] on the clip of [video_file] *)
  write_audiofile : string -> string -> gset string -> gset string * result unit;
  (* [whisper.load_model(name)] *)
  load_model : string -> gset string -> gset string * result unit;
  (* [model.transcribe(audio_file)['text']] *)
  transcribe : string -> gset string -> gset string * result str;
}.

(** *** Computations: a state threaded through, and exceptions *)

Definition M (S A : Type) : Type := S -> result A * S.

Definition ret {S A} (a : A) : M S A := fun s => (Ok a, s).
Definition raise {S A} (e : exn) : M S A := fun s => (Raise e, s).
Definition bind {S A B} (m : M S A) (k : A -> M S B) : M S B :=
  fun s => match m s with
           | (Ok a, s') => k a s'
           | (Raise e, s') => (Raise e, s')
           end.
Definition get {S} : M S S := fun s => (Ok s, s).
Definition modify {S} (f : S -> S) : M S unit := fun s => (Ok tt, f s).
Definition of_result {S A} (r : result A) : M S A := fun s => (r, s).

(** [try: body except Exception as e: handler(e)] *)
Definition try_except {S A} (body : M S A) (handler : exn -> M S A) : M S A :=
  fun s => match body s with
           | (Ok a, s') => (Ok a, s')
           | (Raise e, s') => handler e s'
           end.

(** [try: body finally: cleanup].  The cleanup runs on every exit of the
    body; an exception of the cleanup replaces the body's outcome. *)
Definition try_finally {S A} (body : M S A) (cleanup : M S unit) : M S A :=
  fun s => match body s with
           | (r, s') =>
               match cleanup s' with
               | (Ok _, s'') => (r, s'')
               | (Raise e, s'') => (Raise e, s'')
               end
           end.

#[global] Instance M_ret {S} : MRet (M S) := fun A a => ret a.
#[global] Instance M_bind {S} : MBind (M S) := fun A B k m => bind m k.

(** *** The primitives on the world *)

Definition set_files (fs : gset string) (w : World) : World :=
  mkWorld fs (open_clips w) (reported w).

(** A call into an external library. *)
Definition external {A} (call : gset string -> gset string * result A) : M World A :=
  fun w => let '(fs, r) := call (files w) in (r, set_files fs w).

(** [os.path.exists(path)] *)
Definition os_path_exists (path : string) : M World bool :=
  fun w => (Ok (bool_decide (path ∈ files w)), w).

(** [os.remove(path)] on a path of the working directory. *)
Definition os_remove (path : string) : M World unit :=
  fun w => if bool_decide (path ∈ files w)
           then (Ok tt, set_files (files w ∖ {[path]}) w)
           else (Raise (FileNotFoundError path), w).

(** [st.error(msg)] *)
Definition st_error (msg : string) : M World unit :=
  modify (fun w => mkWorld (files w) (open_clips w) (reported w ++ [msg])).

(** The first occurrence of [x] leaves the list. *)
Fixpoint remove_first (x : string) (l : list string) : list string :=
  match l with
  | [] => []
  | y :: l' => if String.eqb x y then l' else y :: remove_first x l'
  end.

(** A [VideoFileClip] object. *)
Record Clip : Type := mkClip {
  clip_file : string;
  has_audio : bool;           (* [clip.audio is not None] *)
}.

Section WithEnv.

Variable env : Env.
Variable lower : str -> str.

(** [VideoFileClip(video_file)]: on success the clip holds its file open. *)
Definition VideoFileClip (video_file : string) : M World Clip :=
  audio ← external (clip_open env video_file);
  modify (fun w => mkWorld (files w) (video_file :: open_clips w) (reported w)) ;;
  ret (mkClip video_file audio).

(** [clip.close()] *)
Definition clip_close (clip : Clip) : M World unit :=
  modify (fun w => mkWorld (files w) (remove_first (clip_file clip) (open_clips w))
                           (reported w)).

Definition download_video (url : str) (out_file : string) : M World string :=
  external (ydl_download env url out_file) ;;
  ret out_file.

Definition extract_audio (video_file audio_file : string) : M World string :=
  clip ← VideoFileClip video_file;
  if negb (has_audio clip) then
    clip_close clip ;;
    raise (RuntimeError ("No audio stream found in " +:+ video_file))
  else
    external (write_audiofile env video_file audio_file) ;;
    clip_close clip ;;
    ret audio_file.

Definition transcribe_audio (audio_file : string) : M World str :=
  external (load_model env "base") ;;
  external (transcribe env audio_file).

(** *** The orchestrator *)

(** The frame of [process_video]: its two path variables and the world. *)
Record Frame : Type := mkFrame {
  video_file : option string;
  audio_file : option string;
  world : World;
}.

Definition in_world {A} (m : M World A) : M Frame A :=
  fun fr => let '(r, w) := m (world fr) in
            (r, mkFrame (video_file fr) (audio_file fr) w).

Definition set_video_file (v : option string) : M Frame unit :=
  modify (fun fr => mkFrame v (audio_file fr) (world fr)).
Definition set_audio_file (v : option string) : M Frame unit :=
  modify (fun fr => mkFrame (video_file fr) v (world fr)).

(** Truth value of a variable that holds [None] or a string. *)
Definition truthy (v : option string) : bool :=
  match v with
  | None => false
  | Some s => negb (String.eqb s "")
  end.

(** [if var and os.path.exists(var): os.remove(var)] *)
Definition remove_if_exists (var : option string) : M Frame unit :=
  match var with
  | Some path =>
      if truthy var then
        present ← in_world (os_path_exists path);
        if (present : bool) then in_world (os_remove path) else ret tt
      else ret tt
  | None => ret tt
  end.

(** The four values that [process_video] returns; each may be [None]. *)
Definition Output : Type := option str * option string * option Z * option string.

(** The statements of the [try] block. *)
Definition try_block (url : str) : M Frame Output :=
  v ← in_world (download_video url "downloaded_video.mp4");
  set_video_file (Some v) ;;
  a ← in_world (extract_audio v "audio.wav");
  set_audio_file (Some a) ;;
  transcription ← in_world (transcribe_audio a);
  '(accent, confidence, explanation) ←
     of_result (simple_accent_classifier lower transcription);
  ret (Some transcription, Some accent, Some confidence, Some explanation).

(** The statements of [except Exception as e]. *)
Definition except_block (e : exn) : M Frame Output :=
  in_world (st_error ("Error: " +:+ exn_message e)) ;;
  ret (None, None, None, None).

(** The statements of [finally]. *)
Definition finally_block : M Frame unit :=
  fr ← get; remove_if_exists (video_file fr) ;;
  fr ← get; remove_if_exists (audio_file fr).

Definition process_video_body (url : str) : M Frame Output :=
  try_finally (try_except (try_block url) except_block) finally_block.

(** A call of [process_video(url)] in world [w]. *)
Definition process_video (url : str) (w : World) : result Output * World :=
  let '(r, fr) := process_video_body url (mkFrame None None w) in
  (r, world fr).

End WithEnv.

(** The four stages in sequence, with no handler around them: what the
    [try] block of [process_video] runs. *)
Definition run_stages (env : Env) (lower : str -> str) (url : str)
    : M World (str * (string * Z * string)) :=
  v ← download_video env url "downloaded_video.mp4";
  a ← extract_audio env v "audio.wav";
  transcription ← transcribe_audio env a;
  r ← of_result (simple_accent_classifier lower transcription);
  ret (transcription, r).

(** The paths that [if var and os.path.exists(var): os.remove(var)] can
    remove for a variable: its value when it is a non-empty string. *)
Definition path_set (var : option string) : gset string :=
  match var with
  | Some p => if truthy var then {[p]} else ∅
  | None => ∅
  end.

(** The paths that the variables [video_file] and [audio_file] hold when the
    [finally] block starts: each is bound when its stage has returned. *)
Definition recorded_paths (env : Env) (url : str) (w : World) : gset string :=
  match download_video env url "downloaded_video.mp4" w with
  | (Raise _, _) => ∅
  | (Ok v, w1) =>
      match extract_audio env v "audio.wav" w1 with
      | (Raise _, _) => {[v]}
      | (Ok a, _) => {[v; a]}
      end
  end.

(** What [process_video] returns after the stages ended in [r], and what it
    reports through [st.error]. *)
Definition output_of (r : result (str * (string * Z * string))) : Output :=
  match r with
  | Ok (transcription, (accent, confidence, explanation)) =>
      (Some transcription, Some accent, Some confidence, Some explanation)
  | Raise _ => (None, None, None, None)
  end.

Definition report_of {A} (r : result A) : list string :=
  match r with
  | Ok _ => []
  | Raise e => ["Error: " +:+ exn_message e]
  end.

Definition is_ok {A} (r : result A) : Prop :=
  match r with
  | Ok _ => True
  | Raise _ => False
  end.

(** *** Sample worlds *)

Definition empty_world : World := mkWorld ∅ [] [].

(** Every library call succeeds; the download and the audio writer create
    their output files and the speech model hears [text]. *)
Definition env_ok (text : str) : Env :=
  mkEnv (fun _ out fs => ({[out]} ∪ fs, Ok tt))
        (fun _ fs => (fs, Ok true))
        (fun _ audio fs => ({[audio]} ∪ fs, Ok tt))
        (fun _ fs => (fs, Ok tt))
        (fun _ fs => (fs, Ok text)).

(** The downloaded container has no audio stream. *)
Definition env_no_audio : Env :=
  mkEnv (fun _ out fs => ({[out]} ∪ fs, Ok tt))
        (fun _ fs => (fs, Ok false))
        (fun _ audio fs => ({[audio]} ∪ fs, Ok tt))
        (fun _ fs => (fs, Ok tt))
        (fun _ fs => (fs, Ok [])).

(** The audio writer starts the output file and then fails. *)
Definition env_partial_audio : Env :=
  mkEnv (fun _ out fs => ({[out]} ∪ fs, Ok tt))
        (fun _ fs => (fs, Ok true))
        (fun _ audio fs =>
           ({[audio]} ∪ fs, Raise (LibraryError "error while writing audio.wav")))
        (fun _ fs => (fs, Ok tt))
        (fun _ fs => (fs, Ok [])).

Definition sample_url : str := lit "https://www.youtube.com/watch?v=abc".

End Pipeline.

Import Pipeline.

(** ** The classifier over a store of objects *)

Module Store.

(** The mutable objects that the classifier works with: lists of strings
    and the dict of scores.  Strings and integers are immutable values. *)
Inductive obj : Type :=
| ListObj (items : list str)
| DictObj (entries : dict).

(** The objects that exist, each at its address: its position in the heap. *)
Definition heap : Type := list obj.

(** A list display or dict display: a new object at a fresh address. *)
Definition alloc (o : obj) : M heap nat :=
  fun h => (Ok (length h), h ++ [o]).

(** Reading the items of the list at an address. *)
Definition read_list (l : nat) : M heap (list str) :=
  fun h => match h !! l with
           | Some (ListObj items) => (Ok items, h)
           | _ => (Raise (TypeError "object is not a list"), h)
           end.

(** Reading the entries of the dict at an address. *)
Definition read_dict (l : nat) : M heap dict :=
  fun h => match h !! l with
           | Some (DictObj entries) => (Ok entries, h)
           | _ => (Raise (TypeError "object is not a dict"), h)
           end.

(** [sum(word in text for word in keywords)] for the list at [keywords]. *)
Definition sum_present (text : str) (keywords : nat) : M heap Z :=
  words ← read_list keywords;
  mret (keyword_score text words).

Section WithLower.

Variable lower : str -> str.

(** [simple_accent_classifier] statement by statement, with the three
    keyword lists and the dict [scores] as objects of the heap. *)
Definition classifier_run (text : str) : M heap (string * Z * string) :=
  let text := lower text in
  british_keywords ← alloc (ListObj (map lit
    ["colour"; "favourite"; "realise"; "aluminium"; "lorry"; "biscuit"]));
  american_keywords ← alloc (ListObj (map lit
    ["color"; "favorite"; "realize"; "aluminum"; "truck"; "cookie"]));
  australian_keywords ← alloc (ListObj (map lit
    ["mate"; "arvo"; "barbie"; "brekkie"]));
  british_score ← sum_present text british_keywords;
  american_score ← sum_present text american_keywords;
  australian_score ← sum_present text australian_keywords;
  scores ← alloc (DictObj [("British", british_score); ("American", american_score);
                           ("Australian", australian_score)]);
  values ← read_dict scores;
  let total := sum_values values in
  if total =? 0 then mret no_accent
  else
    entries ← read_dict scores;
    accent ← of_result (max_key entries);
    entries ← read_dict scores;
    count ← of_result (dict_item entries accent);
    confidence ← of_result (confidence_of count total);
    mret (accent, confidence, explanation_of accent confidence).

End WithLower.

(** A heap with objects of another part of the program in it. *)
Definition sample_heap : heap :=
  [ListObj [lit "mate"; lit "arvo"]; DictObj [("British", 7)]].

End Store.

Import Store.

(** ** The Streamlit page *)

Module App.

(** What the script puts on the page, in order. *)
Inductive widget : Type :=
| Title (s : string)            (* [st.title] *)
| TextInput (label : string)    (* [st.text_input] *)
| Button (label : string)       (* [st.button] *)
| Warning (s : string)          (* [st.warning] *)
| Spinner (s : string)          (* [st.spinner] *)
| ErrorBox (s : string)         (* [st.error] *)
| Subheader (s : string)        (* [st.subheader] *)
| WriteText (t : str)           (* [st.write] of the transcription *)
| WriteMarkdown (s : string).   (* [st.write] of an f-string *)

(** The page under construction and the world behind it. *)
Record Page : Type := mkPage {
  page_world : World;
  rendered : list widget;
}.

Definition render (wd : widget) : M Page unit :=
  modify (fun pg => mkPage (page_world pg) (rendered pg ++ [wd])).

(** A call that works on the world, made from the script.  Every message
    that the call gives to [st.error] is drawn on the page as it is given. *)
Definition in_page {A} (call : World -> result A * World) : M Page A :=
  fun pg =>
    let '(r, w) := call (page_world pg) in
    let shown := drop (length (reported (page_world pg))) (reported w) in
    (r, mkPage w (rendered pg ++ map ErrorBox shown)).

(** [{accent}] and [{explanation}] in an f-string. *)
Definition format_str (v : option string) : string :=
  match v with
  | Some s => s
  | None => "None"
  end.

(** [{confidence}] in an f-string. *)
Definition format_int (v : option Z) : string :=
  match v with
  | Some n => str_of_int n
  | None => "None"
  end.

Section WithRuntime.

Variable env : Env.
Variable lower : str -> str.

(** [str.isspace] of the Python runtime, on one code point. *)
Variable is_space : N -> bool.

(** [s.lstrip()] *)
Fixpoint lstrip (s : str) : str :=
  match s with
  | [] => []
  | c :: s' => if is_space c then lstrip s' else s
  end.

(** [s.strip()]: white space leaves both ends. *)
Definition strip (s : str) : str := rev (lstrip (rev (lstrip s))).

(** [not s] for a string. *)
Definition is_empty (s : str) : bool :=
  match s with
  | [] => true
  | _ :: _ => false
  end.

(** The statements of the script after the function definitions, for the
    text [video_url] in the input field and [pressed], the value of
    [st.button]. *)
Definition app_script (video_url : str) (pressed : bool) : M Page unit :=
  render (Title "Accent Detector from YouTube Video") ;;
  render (TextInput "Enter YouTube video URL:") ;;
  render (Button "Analyze Accent") ;;
  if pressed then
    if is_empty (strip video_url) then
      render (Warning "Please enter a valid YouTube video URL.")
    else
      render (Spinner "Processing... This may take a few minutes depending on video length and model speed.") ;;
      '(transcription, accent, confidence, explanation) ←
         in_page (process_video env lower video_url);
      match transcription with
      | Some t =>
          render (Subheader "Transcription:") ;;
          render (WriteText t) ;;
          render (Subheader "Accent Detection Result:") ;;
          render (WriteMarkdown ("**Accent:** " +:+ format_str accent)) ;;
          render (WriteMarkdown ("**Confidence:** " +:+ format_int confidence +:+ "%")) ;;
          render (WriteMarkdown ("**Explanation:** " +:+ format_str explanation))
      | None => ret tt
      end
  else ret tt.

End WithRuntime.

(** The widgets that every run of the script renders first. *)
Definition page_head : list widget :=
  [Title "Accent Detector from YouTube Video";
   TextInput "Enter YouTube video URL:";
   Button "Analyze Accent"].

(** [str.isspace] on the Basic Latin block. *)
Definition ascii_space (c : N) : bool :=
  ((9 <=? c) && (c <=? 13) || (28 <=? c) && (c <=? 32))%N.

(** The download fails at once and writes nothing. *)
Definition env_download_fails : Env :=
  mkEnv (fun _ _ fs => (fs, Raise (LibraryError "ERROR: Unsupported URL")))
        (fun _ fs => (fs, Ok true))
        (fun _ audio fs => ({[audio]} ∪ fs, Ok tt))
        (fun _ fs => (fs, Ok tt))
        (fun _ fs => (fs, Ok [])).

Definition empty_page : Page := mkPage empty_world [].

End App.

Import App.

(** * Properties of the classifier *)

(** ** Substring search *)

Lemma startswith_spec (w s : str) :
  startswith w s = true <-> exists post, s = w ++ post.
Proof.
  revert s. induction w as [|c w IH]; intros s; simpl.
  - split; [intros _; by exists s | done].
  - destruct s as [|d s].
    + split; [done | intros [post H]; discriminate H].
    + rewrite andb_true_iff, N.eqb_eq, IH. split.
      * intros [-> [post ->]]. by exists post.
      * intros [post H]. injection H as -> ->. eauto.
Qed.

Lemma contains_spec (w s : str) : contains w s = true <-> occurs w s.
Proof.
  unfold occurs. induction s as [|d s IH].
  - simpl. rewrite orb_false_r, startswith_spec. split.
    + intros [post H]. by exists [], post.
    + intros [pre [post H]]. symmetry in H.
      apply app_eq_nil in H as [-> H]. apply app_eq_nil in H as [-> ->].
      by exists [].
  - change (contains w (d :: s)) with (startswith w (d :: s) || contains w s).
    rewrite orb_true_iff, startswith_spec, IH. split.
    + intros [[post H] | [pre [post H]]].
      * by exists [], post.
      * exists (d :: pre), post. by rewrite H.
    + intros [[|c pre] [post H]].
      * left. by exists post.
      * right. injection H as _ ->. by exists pre, post.
Qed.

Lemma contains_false (w s : str) : contains w s = false <-> ~ occurs w s.
Proof. rewrite <- contains_spec. by destruct (contains w s). Qed.

(** ** Scores *)

Lemma keyword_score_acc (text : str) (keywords : list str) (acc : Z) :
  fold_left (fun acc word => acc + (if contains word text then 1 else 0)) keywords acc
  = acc + keyword_score text keywords.
Proof.
  unfold keyword_score. revert acc.
  induction keywords as [|w kws IH]; intros acc; simpl; [lia|].
  rewrite IH, (IH (0 + _)). lia.
Qed.

Lemma keyword_score_nil (text : str) : keyword_score text [] = 0.
Proof. reflexivity. Qed.

Lemma keyword_score_cons (text w : str) (keywords : list str) :
  keyword_score text (w :: keywords)
  = (if contains w text then 1 else 0) + keyword_score text keywords.
Proof. unfold keyword_score at 1. simpl. by rewrite keyword_score_acc. Qed.

Lemma keyword_score_filter (text : str) (keywords : list str) :
  keyword_score text keywords
  = Z.of_nat (length (List.filter (fun w => contains w text) keywords)).
Proof.
  induction keywords as [|w kws IH]; [done|].
  rewrite keyword_score_cons, IH. simpl.
  destruct (contains w text); simpl; lia.
Qed.

Lemma keyword_score_bounds (text : str) (keywords : list str) :
  0 <= keyword_score text keywords <= Z.of_nat (length keywords).
Proof.
  induction keywords as [|w kws IH]; [simpl; rewrite keyword_score_nil; lia|].
  rewrite keyword_score_cons. simpl length.
  destruct (contains w text); lia.
Qed.

Lemma keyword_score_zero (text : str) (keywords : list str) :
  keyword_score text keywords = 0 <-> Forall (fun w => ~ occurs w text) keywords.
Proof.
  induction keywords as [|w kws IH].
  - split; [constructor | done].
  - rewrite keyword_score_cons, Forall_cons, <- IH, <- contains_false.
    pose proof (keyword_score_bounds text kws).
    destruct (contains w text); split; try lia; intros [? ?]; try done; lia.
Qed.

Lemma british_score_bounds (text : str) : 0 <= keyword_score text british_keywords <= 6.
Proof. apply (keyword_score_bounds text british_keywords). Qed.

Lemma american_score_bounds (text : str) : 0 <= keyword_score text american_keywords <= 6.
Proof. apply (keyword_score_bounds text american_keywords). Qed.

Lemma australian_score_bounds (text : str) : 0 <= keyword_score text australian_keywords <= 4.
Proof. apply (keyword_score_bounds text australian_keywords). Qed.

(** ** The float computation of the confidence *)

(** On every pair of counts that the lexicon can produce, the float
    computation is exact. *)
Lemma confidence_exact_upto_16 :
  forallb (fun total => forallb (fun count => confidence_exact count total)
                                (seqZ 0 (total + 1)))
          (seqZ 1 16) = true.
Proof. vm_compute. reflexivity. Qed.

Lemma confidence_of_small (count total : Z) :
  1 <= total <= 16 -> 0 <= count <= total ->
  confidence_of count total = Ok (100 * count / total).
Proof.
  intros Ht Hc. pose proof confidence_exact_upto_16 as H.
  rewrite forallb_forall in H.
  specialize (H total). rewrite forallb_forall in H.
  assert (Hin : In total (seqZ 1 16)).
  { apply list_elem_of_In, elem_of_seqZ. lia. }
  specialize (H Hin count).
  assert (Hin' : In count (seqZ 0 (total + 1))).
  { apply list_elem_of_In, elem_of_seqZ. lia. }
  specialize (H Hin'). unfold confidence_exact in H.
  destruct (confidence_of count total) as [c|e]; [|discriminate].
  apply Z.eqb_eq in H. by subst.
Qed.

(** With totals beyond the lexicon's reach the float product can fall just
    below the exact percentage: [29 / 50 * 100] is [57.99999999999999]. *)
Example confidence_of_29_50 : confidence_of 29 50 = Ok 57.
Proof. vm_compute. reflexivity. Qed.

(** ** Selection of the label *)

Lemma sum_values_scores (b a au : Z) : sum_values (scores_dict b a au) = b + a + au.
Proof. reflexivity. Qed.

Lemma max_key_scores (b a au : Z) :
  max_key (scores_dict b a au) = Ok (first_maximal_label b a au).
Proof.
  unfold first_maximal_label, max_key, scores_dict. simpl.
  destruct (Z.ltb_spec b a), (Z.leb_spec a b); try lia; simpl;
    destruct (Z.leb_spec au b), (Z.leb_spec au a);
    repeat match goal with |- context [?x <? ?y] => destruct (Z.ltb_spec x y) end;
    try lia; reflexivity.
Qed.

Lemma dict_item_first_maximal (b a au : Z) :
  dict_item (scores_dict b a au) (first_maximal_label b a au)
  = Ok (Z.max b (Z.max a au)).
Proof.
  unfold first_maximal_label, dict_item, scores_dict.
  destruct (Z.leb_spec a b), (Z.leb_spec au b), (Z.leb_spec au a);
    simpl; f_equal; lia.
Qed.

Lemma classify_scores_spec (b a au : Z) :
  0 <= b <= 6 -> 0 <= a <= 6 -> 0 <= au <= 4 ->
  classify_scores b a au =
    if b + a + au =? 0 then Ok no_accent
    else
      let confidence := 100 * Z.max b (Z.max a au) / (b + a + au) in
      Ok (first_maximal_label b a au, confidence,
          explanation_of (first_maximal_label b a au) confidence).
Proof.
  intros Hb Ha Hau. unfold classify_scores.
  rewrite sum_values_scores.
  destruct (Z.eqb_spec (b + a + au) 0) as [|Hne]; [done|].
  rewrite max_key_scores. simpl rbind.
  rewrite dict_item_first_maximal. simpl rbind.
  rewrite confidence_of_small by lia. reflexivity.
Qed.

Lemma classifier_scores (lower : str -> str) (text : str) :
  simple_accent_classifier lower text =
    classify_scores (keyword_score (lower text) british_keywords)
                    (keyword_score (lower text) american_keywords)
                    (keyword_score (lower text) australian_keywords).
Proof. reflexivity. Qed.

Lemma classifier_spec (lower : str -> str) (text : str) :
  let b := keyword_score (lower text) british_keywords in
  let a := keyword_score (lower text) american_keywords in
  let au := keyword_score (lower text) australian_keywords in
  simple_accent_classifier lower text =
    if b + a + au =? 0 then Ok no_accent
    else
      let confidence := 100 * Z.max b (Z.max a au) / (b + a + au) in
      Ok (first_maximal_label b a au, confidence,
          explanation_of (first_maximal_label b a au) confidence).
Proof.
  intros b a au. rewrite classifier_scores.
  apply classify_scores_spec.
  - apply british_score_bounds.
  - apply american_score_bounds.
  - apply australian_score_bounds.
Qed.

Lemma total_zero_iff (lower : str -> str) (text : str) :
  sum_values (scores_of lower text) = 0
  <-> Forall (fun w => ~ occurs w (lower text)) all_keywords.
Proof.
  unfold scores_of, all_keywords. rewrite sum_values_scores, !Forall_app.
  rewrite <- !keyword_score_zero.
  pose proof (british_score_bounds (lower text)).
  pose proof (american_score_bounds (lower text)).
  pose proof (australian_score_bounds (lower text)).
  lia.
Qed.

Lemma not_occurs_check (text : str) (keywords : list str) :
  forallb (fun w => negb (contains w text)) keywords = true ->
  Forall (fun w => ~ occurs w text) keywords.
Proof.
  rewrite forallb_forall, Forall_forall. intros H w Hw.
  apply contains_false. specialize (H w). rewrite negb_true_iff in H.
  apply H. by apply list_elem_of_In.
Qed.

Lemma all_keywords_NoDup : NoDup all_keywords.
Proof. apply (bool_decide_unpack _). by vm_compute. Qed.

Lemma lower_cp_idem (c : N) : lower_cp (lower_cp c) = lower_cp c.
Proof.
  unfold lower_cp.
  destruct ((65 <=? c) && (c <=? 90))%N eqn:E; [|by rewrite E].
  apply andb_true_iff in E as [E1 E2].
  apply N.leb_le in E1, E2.
  destruct ((65 <=? c + 32) && (c + 32 <=? 90))%N eqn:E'; [|done].
  apply andb_true_iff in E' as [_ E']. apply N.leb_le in E'. lia.
Qed.

Lemma ascii_lower_idem (s : str) : ascii_lower (ascii_lower s) = ascii_lower s.
Proof.
  unfold ascii_lower. rewrite map_map. apply map_ext. intros c. apply lower_cp_idem.
Qed.

(** ** The claims about the classifier *)

(** C1: the classifier returns a value on every transcript, so it neither
    divides by zero nor raises; the total of the three scores is zero exactly
    when no keyword of any list occurs in the lower-cased transcript, and in
    that case the value is the triple "No accent detected", 0 and the fixed
    message. *)
Theorem classifier_no_keyword_result (lower : str -> str) (text : str) :
  (exists r, simple_accent_classifier lower text = Ok r) /\
  (forall e, simple_accent_classifier lower text <> Raise e) /\
  (Forall (fun w => ~ occurs w (lower text)) all_keywords
   <-> sum_values (scores_of lower text) = 0) /\
  (Forall (fun w => ~ occurs w (lower text)) all_keywords ->
   simple_accent_classifier lower text =
     Ok ("No accent detected", 0, "No accent keywords detected in the transcription.")).
Proof.
  pose proof (classifier_spec lower text) as Hspec. cbv zeta in Hspec.
  split; [|split; [|split]].
  - rewrite Hspec. destruct (_ =? 0); eauto.
  - intros e. rewrite Hspec. by destruct (_ =? 0).
  - symmetry. apply total_zero_iff.
  - intros Hnone. apply total_zero_iff in Hnone.
    unfold scores_of in Hnone. rewrite sum_values_scores in Hnone.
    rewrite Hspec, Hnone. reflexivity.
Qed.

Lemma classifier_no_keyword_witness :
  simple_accent_classifier ascii_lower (lit "Good morning, everyone.") =
    Ok ("No accent detected", 0, "No accent keywords detected in the transcription.").
Proof.
  apply (proj2 (proj2 (proj2 (classifier_no_keyword_result ascii_lower
                                (lit "Good morning, everyone."))))).
  apply not_occurs_check. vm_compute. reflexivity.
Defined.

(** C2: on every transcript the confidence is between 0 and 100, and when
    the total of the three scores is positive it is the floor of 100 times
    the winning label's score over the total, the winning score being the
    greatest of the three. *)
Theorem confidence_floor_percentage (lower : str -> str) (text : str) :
  exists accent confidence explanation,
    simple_accent_classifier lower text = Ok (accent, confidence, explanation) /\
    0 <= confidence <= 100 /\
    (0 < sum_values (scores_of lower text) ->
     exists winning,
       dict_get (scores_of lower text) accent = Some winning /\
       Forall (fun kv => snd kv <= winning) (scores_of lower text) /\
       confidence = 100 * winning / sum_values (scores_of lower text)).
Proof.
  pose proof (classifier_spec lower text) as Hspec. cbv zeta in Hspec.
  unfold scores_of. rewrite sum_values_scores.
  pose proof (british_score_bounds (lower text)) as Hb.
  pose proof (american_score_bounds (lower text)) as Ha.
  pose proof (australian_score_bounds (lower text)) as Hau.
  set (b := keyword_score (lower text) british_keywords) in *.
  set (a := keyword_score (lower text) american_keywords) in *.
  set (au := keyword_score (lower text) australian_keywords) in *.
  destruct (Z.eqb_spec (b + a + au) 0) as [Hz|Hnz].
  - exists "No accent detected", 0, "No accent keywords detected in the transcription.".
    split; [exact Hspec|]. split; [lia|]. lia.
  - eexists _, _, _. split; [exact Hspec|].
    assert (Hmax : Z.max b (Z.max a au) <= b + a + au) by lia.
    split.
    + split.
      * apply Z.div_pos; lia.
      * apply Z.div_le_upper_bound; lia.
    + intros _. exists (Z.max b (Z.max a au)). split; [|split].
      * pose proof (dict_item_first_maximal b a au) as Hitem.
        unfold dict_item in Hitem.
        destruct (dict_get (scores_dict b a au) (first_maximal_label b a au));
          [by injection Hitem as -> | discriminate].
      * unfold scores_dict. repeat constructor; simpl; lia.
      * reflexivity.
Qed.

Lemma confidence_floor_percentage_witness :
  exists accent confidence explanation,
    simple_accent_classifier ascii_lower (lit "My favourite colour, mate, is the color of a truck")
      = Ok (accent, confidence, explanation) /\
    0 <= confidence <= 100 /\
    exists winning,
      dict_get (scores_of ascii_lower (lit "My favourite colour, mate, is the color of a truck"))
               accent = Some winning /\
      Forall (fun kv => snd kv <= winning)
             (scores_of ascii_lower (lit "My favourite colour, mate, is the color of a truck")) /\
      confidence = 100 * winning / 5.
Proof.
  destruct (confidence_floor_percentage ascii_lower
              (lit "My favourite colour, mate, is the color of a truck"))
    as (accent & confidence & explanation & Hres & Hrange & Hfloor).
  exists accent, confidence, explanation.
  split; [exact Hres|]. split; [exact Hrange|].
  apply Hfloor. vm_compute. reflexivity.
Defined.

Lemma lexicon_score (lower : str -> str) (text : str) (label : string) (kws : list str) :
  In (label, kws) lexicon ->
  dict_get (scores_of lower text) label = Some (keyword_score (lower text) kws).
Proof.
  unfold lexicon. simpl.
  intros [H | [H | [H | []]]]; injection H as <- <-; reflexivity.
Qed.

Lemma lexicon_keywords (label : string) (kws : list str) (w : str) :
  In (label, kws) lexicon -> In w kws -> In w all_keywords.
Proof.
  unfold lexicon, all_keywords. simpl In at 1.
  intros [H | [H | [H | []]]] Hw; injection H as <- <-;
    rewrite !in_app_iff; tauto.
Qed.

(** C6: for every transcript and every label, the label's entry in [scores]
    is the number of the label's keywords that occur in the lower-cased
    transcript: the keywords of a label are pairwise distinct, [w in text]
    is true exactly when [w] occurs as a substring, and a keyword adds 1 when
    it is true and 0 when it is false, however often it occurs. *)
Theorem label_score_counts_presence (lower : str -> str) (text : str)
    (label : string) (kws : list str) :
  In (label, kws) lexicon ->
  dict_get (scores_of lower text) label
    = Some (Z.of_nat (length (List.filter (fun w => contains w (lower text)) kws))) /\
  NoDup kws /\
  (forall w, contains w (lower text) = true <-> occurs w (lower text)) /\
  (forall w rest,
     keyword_score (lower text) (w :: rest)
     = (if contains w (lower text) then 1 else 0) + keyword_score (lower text) rest) /\
  (forall w pre mid post,
     lower text = pre ++ w ++ mid ++ w ++ post ->
     (if contains w (lower text) then 1 else 0) = 1).
Proof.
  intros Hin. split; [|split; [|split; [|split]]].
  - rewrite (lexicon_score lower text label kws Hin).
    by rewrite keyword_score_filter.
  - pose proof all_keywords_NoDup as Hnd. unfold all_keywords in Hnd.
    apply NoDup_app in Hnd as (Hb & _ & Hrest).
    apply NoDup_app in Hrest as (Ha & _ & Hau).
    unfold lexicon in Hin. simpl in Hin.
    destruct Hin as [H | [H | [H | []]]]; injection H as <- <-; assumption.
  - intros w. apply contains_spec.
  - intros w rest. apply keyword_score_cons.
  - intros w pre mid post Heq.
    assert (Hocc : occurs w (lower text)).
    { exists pre, (mid ++ w ++ post). exact Heq. }
    apply contains_spec in Hocc. by rewrite Hocc.
Qed.

Lemma label_score_counts_presence_witness :
  dict_get (scores_of ascii_lower (lit "mate, mate, mate: a barbie this arvo?")) "Australian"
    = Some 3.
Proof.
  destruct (label_score_counts_presence ascii_lower
              (lit "mate, mate, mate: a barbie this arvo?")
              "Australian" australian_keywords) as [Hscore _].
  - unfold lexicon. simpl. tauto.
  - exact Hscore.
Defined.

(** C7: matching does not depend on case.  For every transcript each
    label's score is the number of its keywords found in the lower-cased
    transcript, so two transcripts with the same lower-case form are
    classified alike; as lower-casing a lower-cased string changes nothing,
    the output on a transcript is the output on its lower-cased form.  With
    "COLOUR AND MATE" lower-casing to "colour and mate", the classifier finds
    "colour" and "mate" in it as it does in "colour and mate": both texts
    score 1 for British, 0 for American and 1 for Australian and get British
    with confidence 50. *)
Theorem classifier_case_insensitive (lower : str -> str)
    (lower_idem : forall s, lower (lower s) = lower s)
    (lower_sample : lower (lit "COLOUR AND MATE") = lit "colour and mate") :
  (forall text1 text2,
     lower text1 = lower text2 ->
     simple_accent_classifier lower text1 = simple_accent_classifier lower text2) /\
  (forall text,
     simple_accent_classifier lower text = simple_accent_classifier lower (lower text)) /\
  contains (lit "colour") (lower (lit "COLOUR AND MATE")) = true /\
  contains (lit "mate") (lower (lit "COLOUR AND MATE")) = true /\
  scores_of lower (lit "COLOUR AND MATE") = scores_of lower (lit "colour and mate") /\
  simple_accent_classifier lower (lit "COLOUR AND MATE")
    = simple_accent_classifier lower (lit "colour and mate") /\
  (forall text label kws,
     In (label, kws) lexicon ->
     dict_get (scores_of lower text) label
       = Some (Z.of_nat (length (List.filter (fun w => contains w (lower text)) kws)))) /\
  scores_of lower (lit "COLOUR AND MATE")
    = [("British", 1); ("American", 0); ("Australian", 1)] /\
  scores_of lower (lit "colour and mate")
    = [("British", 1); ("American", 0); ("Australian", 1)] /\
  simple_accent_classifier lower (lit "COLOUR AND MATE")
    = Ok ("British", 50, "Detected keywords suggest British accent with confidence 50%.") /\
  simple_accent_classifier lower (lit "colour and mate")
    = Ok ("British", 50, "Detected keywords suggest British accent with confidence 50%.").
Proof.
  assert (Hsame : forall text1 text2, lower text1 = lower text2 ->
            simple_accent_classifier lower text1 = simple_accent_classifier lower text2).
  { intros text1 text2 Heq. rewrite !classifier_scores. by rewrite Heq. }
  assert (Hlow : lower (lit "colour and mate") = lower (lit "COLOUR AND MATE")).
  { by rewrite <- lower_sample, lower_idem. }
  assert (Hscores : scores_of lower (lit "COLOUR AND MATE")
                    = [("British", 1); ("American", 0); ("Australian", 1)]).
  { unfold scores_of. rewrite lower_sample. vm_compute. reflexivity. }
  assert (Hout : simple_accent_classifier lower (lit "COLOUR AND MATE")
                 = Ok ("British", 50,
                       "Detected keywords suggest British accent with confidence 50%.")).
  { rewrite classifier_scores, lower_sample. vm_compute. reflexivity. }
  split; [exact Hsame|].
  split; [intros text; apply Hsame; by rewrite lower_idem|].
  split; [rewrite lower_sample; vm_compute; reflexivity|].
  split; [rewrite lower_sample; vm_compute; reflexivity|].
  split; [unfold scores_of; by rewrite Hlow|].
  split; [apply Hsame; by rewrite Hlow|].
  split.
  { intros text label kws Hin.
    rewrite (lexicon_score lower text label kws Hin).
    by rewrite keyword_score_filter. }
  split; [exact Hscores|].
  split; [rewrite <- Hscores; unfold scores_of; by rewrite Hlow|].
  split; [exact Hout|].
  rewrite <- Hout. apply Hsame. exact Hlow.
Qed.

Lemma classifier_case_insensitive_witness :
  scores_of ascii_lower (lit "COLOUR AND MATE")
    = [("British", 1); ("American", 0); ("Australian", 1)] /\
  simple_accent_classifier ascii_lower (lit "COLOUR AND MATE")
    = Ok ("British", 50, "Detected keywords suggest British accent with confidence 50%.") /\
  simple_accent_classifier ascii_lower (lit "colour and mate")
    = Ok ("British", 50, "Detected keywords suggest British accent with confidence 50%.").
Proof.
  assert (Hsample : ascii_lower (lit "COLOUR AND MATE") = lit "colour and mate")
    by (vm_compute; reflexivity).
  destruct (classifier_case_insensitive ascii_lower ascii_lower_idem Hsample)
    as (_ & _ & _ & _ & _ & _ & _ & Hscores & _ & Hupper & Hlower).
  split; [exact Hscores|]. split; [exact Hupper | exact Hlower].
Defined.

Lemma keyword_score_single (text w : str) (keywords : list str) :
  NoDup keywords -> In w keywords -> occurs w text ->
  (forall w', In w' keywords -> occurs w' text -> w' = w) ->
  keyword_score text keywords = 1.
Proof.
  induction keywords as [|k kws IH]; intros Hnd Hin Hocc Honly; [destruct Hin|].
  apply NoDup_cons in Hnd as [Hk Hnd]. rewrite keyword_score_cons.
  destruct Hin as [-> | Hin].
  - apply contains_spec in Hocc as Hc. rewrite Hc.
    assert (Hzero : keyword_score text kws = 0).
    { apply keyword_score_zero, Forall_forall. intros w' Hw' Hocc'.
      apply list_elem_of_In in Hw'.
      assert (w' = w) as -> by (apply Honly; [by right | done]).
      apply Hk. by apply list_elem_of_In. }
    lia.
  - assert (Hc : contains k text = false).
    { apply contains_false. intros Hocc'.
      assert (k = w) as -> by (apply Honly; [by left | done]).
      apply Hk. by apply list_elem_of_In. }
    rewrite Hc, IH; try done.
    intros w' Hw'. apply Honly. by right.
Qed.

Lemma keyword_score_none (text w : str) (keywords : list str) :
  ~ In w keywords ->
  (forall w', In w' keywords -> occurs w' text -> w' = w) ->
  keyword_score text keywords = 0.
Proof.
  intros Hnot Honly. apply keyword_score_zero, Forall_forall.
  intros w' Hw' Hocc. apply list_elem_of_In in Hw'.
  assert (w' = w) as -> by by apply Honly. contradiction.
Qed.

Lemma keyword_lists_disjoint :
  (forall w, In w british_keywords -> ~ In w american_keywords /\ ~ In w australian_keywords) /\
  (forall w, In w american_keywords -> ~ In w british_keywords /\ ~ In w australian_keywords) /\
  (forall w, In w australian_keywords -> ~ In w british_keywords /\ ~ In w american_keywords).
Proof.
  pose proof all_keywords_NoDup as Hnd. unfold all_keywords in Hnd.
  apply NoDup_app in Hnd as (_ & Hba & Hrest).
  apply NoDup_app in Hrest as (_ & Haau & _).
  setoid_rewrite list_elem_of_In in Hba. setoid_rewrite list_elem_of_In in Haau.
  setoid_rewrite in_app_iff in Hba.
  repeat split; intros Hin; try (eapply Hba; eauto; fail); try (eapply Haau; eauto; fail).
Qed.

(** C8: when exactly one keyword occurs in the lower-cased transcript, the
    label whose list holds it is returned with confidence 100. *)
Theorem single_keyword_full_confidence (lower : str -> str) (text : str)
    (label : string) (kws : list str) (w : str) :
  In (label, kws) lexicon ->
  In w kws ->
  occurs w (lower text) ->
  (forall w', In w' all_keywords -> occurs w' (lower text) -> w' = w) ->
  simple_accent_classifier lower text
    = Ok (label, 100,
          "Detected keywords suggest " +:+ label +:+ " accent with confidence 100%.").
Proof.
  intros Hlabel Hw Hocc Honly.
  pose proof all_keywords_NoDup as Hnd. unfold all_keywords in Hnd.
  apply NoDup_app in Hnd as (Hb & _ & Hrest).
  apply NoDup_app in Hrest as (Ha & _ & Hau).
  destruct keyword_lists_disjoint as (Dbr & Dam & Dau).
  assert (Hsub : forall l, (forall x, In x l -> In x all_keywords) ->
            forall w', In w' l -> occurs w' (lower text) -> w' = w).
  { intros l Hl w' Hw'. apply Honly. by apply Hl. }
  assert (Hbsub : forall x, In x british_keywords -> In x all_keywords).
  { intros x. apply (lexicon_keywords "British"). unfold lexicon. simpl. tauto. }
  assert (Hasub : forall x, In x american_keywords -> In x all_keywords).
  { intros x. apply (lexicon_keywords "American"). unfold lexicon. simpl. tauto. }
  assert (Hausub : forall x, In x australian_keywords -> In x all_keywords).
  { intros x. apply (lexicon_keywords "Australian"). unfold lexicon. simpl. tauto. }
  rewrite classifier_scores.
  unfold lexicon in Hlabel. simpl in Hlabel.
  destruct Hlabel as [H | [H | [H | []]]]; injection H as <- <-.
  - destruct (Dbr w Hw) as [N1 N2].
    rewrite (keyword_score_single _ w british_keywords),
            (keyword_score_none _ w american_keywords),
            (keyword_score_none _ w australian_keywords); auto.
  - destruct (Dam w Hw) as [N1 N2].
    rewrite (keyword_score_none _ w british_keywords),
            (keyword_score_single _ w american_keywords),
            (keyword_score_none _ w australian_keywords); auto.
  - destruct (Dau w Hw) as [N1 N2].
    rewrite (keyword_score_none _ w british_keywords),
            (keyword_score_none _ w american_keywords),
            (keyword_score_single _ w australian_keywords); auto.
Qed.

Lemma only_keyword_check (text w : str) :
  forallb (fun w' => implb (contains w' text) (bool_decide (w' = w))) all_keywords = true ->
  forall w', In w' all_keywords -> occurs w' text -> w' = w.
Proof.
  rewrite forallb_forall. intros H w' Hin Hocc.
  specialize (H w' Hin). apply contains_spec in Hocc. rewrite Hocc in H.
  simpl in H. by apply bool_decide_eq_true in H.
Qed.

Lemma single_keyword_full_confidence_witness :
  simple_accent_classifier ascii_lower (lit "We loaded the Lorry at noon.")
    = Ok ("British", 100, "Detected keywords suggest British accent with confidence 100%.").
Proof.
  apply (single_keyword_full_confidence ascii_lower (lit "We loaded the Lorry at noon.")
           "British" british_keywords (lit "lorry")).
  - unfold lexicon. simpl. tauto.
  - vm_compute. tauto.
  - apply contains_spec. vm_compute. reflexivity.
  - apply only_keyword_check. vm_compute. reflexivity.
Defined.

Lemma heap_lookup_last (h : heap) (o : obj) : (h ++ [o]) !! length h = Some o.
Proof. by apply list_lookup_middle. Qed.

Lemma heap_lookup_grown (h : heap) (o o' : obj) (l : nat) :
  h !! l = Some o -> (h ++ [o']) !! l = Some o.
Proof. intros H. by apply lookup_app_l_Some. Qed.

Lemma heap_lookup_new (h objs : heap) (k : nat) :
  (h ++ objs) !! (length h + k)%nat = objs !! k.
Proof.
  rewrite lookup_app_r; [|lia]. f_equal. lia.
Qed.

Lemma read_list_at (h : heap) (l : nat) (items : list str) :
  h !! l = Some (ListObj items) -> read_list l h = (Ok items, h).
Proof. intros H. unfold read_list. by rewrite H. Qed.

Lemma read_dict_at (h : heap) (l : nat) (entries : dict) :
  h !! l = Some (DictObj entries) -> read_dict l h = (Ok entries, h).
Proof. intros H. unfold read_dict. by rewrite H. Qed.

Lemma sum_present_at (h : heap) (l : nat) (text : str) (items : list str) :
  h !! l = Some (ListObj items) ->
  sum_present text l h = (Ok (keyword_score text items), h).
Proof.
  intros H. unfold sum_present, mbind, M_bind, bind.
  by rewrite (read_list_at h l items H).
Qed.

(** A call of the classifier on any heap: its value is the classifier's
    value for the text, and the heap afterwards is the heap before with the
    call's own four objects after it. *)
Lemma classifier_run_spec (lower : str -> str) (text : str) (h : heap) :
  classifier_run lower text h
    = (simple_accent_classifier lower text,
       h ++ [ListObj british_keywords; ListObj american_keywords;
             ListObj australian_keywords; DictObj (scores_of lower text)]).
Proof.
  unfold classifier_run, mbind, M_bind, bind, alloc. cbn zeta.
  fold british_keywords american_keywords australian_keywords.
  set (h1 := h ++ [ListObj british_keywords]).
  set (h2 := h1 ++ [ListObj american_keywords]).
  set (h3 := h2 ++ [ListObj australian_keywords]).
  assert (Hb : h3 !! length h = Some (ListObj british_keywords)).
  { do 2 apply heap_lookup_grown. apply heap_lookup_last. }
  assert (Ha : h3 !! length h1 = Some (ListObj american_keywords)).
  { apply heap_lookup_grown. apply heap_lookup_last. }
  assert (Hau : h3 !! length h2 = Some (ListObj australian_keywords))
    by apply heap_lookup_last.
  rewrite (sum_present_at h3 _ _ _ Hb), (sum_present_at h3 _ _ _ Ha),
    (sum_present_at h3 _ _ _ Hau).
  fold (scores_dict (keyword_score (lower text) british_keywords)
                    (keyword_score (lower text) american_keywords)
                    (keyword_score (lower text) australian_keywords)).
  fold (scores_of lower text).
  set (h4 := h3 ++ [DictObj (scores_of lower text)]).
  assert (Hd : h4 !! length h3 = Some (DictObj (scores_of lower text)))
    by apply heap_lookup_last.
  assert (Hheap : h4 = h ++ [ListObj british_keywords; ListObj american_keywords;
                            ListObj australian_keywords; DictObj (scores_of lower text)]).
  { unfold h4, h3, h2, h1. by rewrite <- !app_assoc. }
  rewrite <- Hheap. clear Hheap Hb Ha Hau. clearbody h4 h3. clear h1 h2.
  unfold simple_accent_classifier, classify_scores. cbv zeta.
  fold (scores_of lower text).
  rewrite (read_dict_at h4 _ _ Hd). cbv beta iota.
  destruct (sum_values (scores_of lower text) =? 0); [reflexivity|].
  rewrite (read_dict_at h4 _ _ Hd). cbv beta iota.
  unfold of_result, mret, M_ret, ret.
  destruct (max_key (scores_of lower text)) as [accent|e]; cbn [rbind];
    [|reflexivity].
  rewrite (read_dict_at h4 _ _ Hd). cbv beta iota.
  destruct (dict_item (scores_of lower text) accent) as [count|e]; cbn [rbind];
    [|reflexivity].
  by destruct (confidence_of count (sum_values (scores_of lower text))).
Qed.

(** C9: a call of the classifier, run on a heap of objects, returns a value
    that depends on the transcript alone, whatever the heap holds, and
    changes no object that existed before the call: the three keyword lists
    and the dict of scores are new objects of the call itself.  A second call
    on the same text, made on the heap the first one left, returns the same
    triple and builds its keyword lists with the same words. *)
Theorem classifier_deterministic (lower : str -> str) (text : str) (h : heap) :
  fst (classifier_run lower text h) = simple_accent_classifier lower text /\
  (forall h' : heap,
     fst (classifier_run lower text h') = fst (classifier_run lower text h)) /\
  (forall (l : nat) (o : obj),
     h !! l = Some o -> snd (classifier_run lower text h) !! l = Some o) /\
  fst (classifier_run lower text (snd (classifier_run lower text h)))
    = fst (classifier_run lower text h) /\
  (forall k : nat,
     (k < 3)%nat ->
     snd (classifier_run lower text (snd (classifier_run lower text h)))
       !! (length (snd (classifier_run lower text h)) + k)%nat
     = snd (classifier_run lower text h) !! (length h + k)%nat) /\
  snd (classifier_run lower text h) !! length h = Some (ListObj british_keywords) /\
  snd (classifier_run lower text h) !! (length h + 1)%nat
    = Some (ListObj american_keywords) /\
  snd (classifier_run lower text h) !! (length h + 2)%nat
    = Some (ListObj australian_keywords).
Proof.
  rewrite !classifier_run_spec. cbn [fst snd].
  split; [reflexivity|].
  split; [|split; [|split; [|split; [|split; [|split]]]]].
  - intros h'. by rewrite classifier_run_spec.
  - intros l o Hl. by apply lookup_app_l_Some.
  - reflexivity.
  - intros k Hk. by rewrite !heap_lookup_new.
  - by apply list_lookup_middle.
  - by rewrite heap_lookup_new.
  - by rewrite heap_lookup_new.
Qed.

(** C10: with a positive total, the label returned is the first of the
    order British, American, Australian that has the greatest score: every
    label before it scores strictly less and every label after it scores at
    most as much.  A transcript that lower-cases to "color mate" scores 1 for
    American and 1 for Australian and gets the label American. *)
Theorem tie_break_first_label (lower : str -> str) (text : str) :
  map fst (scores_of lower text) = ["British"; "American"; "Australian"] /\
  (0 < sum_values (scores_of lower text) ->
   exists pre accent count post confidence explanation,
     scores_of lower text = pre ++ (accent, count) :: post /\
     Forall (fun kv => snd kv < count) pre /\
     Forall (fun kv => snd kv <= count) post /\
     simple_accent_classifier lower text = Ok (accent, confidence, explanation)) /\
  (lower text = lit "color mate" ->
   scores_of lower text = [("British", 0); ("American", 1); ("Australian", 1)] /\
   simple_accent_classifier lower text
     = Ok ("American", 50, "Detected keywords suggest American accent with confidence 50%.")).
Proof.
  split; [reflexivity|]. split.
  - pose proof (classifier_spec lower text) as Hspec. cbv zeta in Hspec.
    unfold scores_of. rewrite sum_values_scores.
    set (b := keyword_score (lower text) british_keywords) in *.
    set (a := keyword_score (lower text) american_keywords) in *.
    set (au := keyword_score (lower text) australian_keywords) in *.
    intros Hpos.
    destruct (Z.eqb_spec (b + a + au) 0) as [Hz|_]; [lia|].
    unfold first_maximal_label in Hspec. unfold scores_dict.
    destruct (Z.leb_spec a b) as [Hab|Hab]; destruct (Z.leb_spec au b) as [Haub|Haub];
      simpl in Hspec.
    + exists [], "British", b, [("American", a); ("Australian", au)].
      eexists _, _. repeat split; [repeat constructor; simpl; lia .. | exact Hspec].
    + destruct (Z.leb_spec au a) as [Haua|Haua]; [lia|].
      exists [("British", b); ("American", a)], "Australian", au, [].
      eexists _, _. repeat split; [repeat constructor; simpl; lia .. | exact Hspec].
    + destruct (Z.leb_spec au a) as [Haua|Haua].
      * exists [("British", b)], "American", a, [("Australian", au)].
        eexists _, _. repeat split; [repeat constructor; simpl; lia .. | exact Hspec].
      * exists [("British", b); ("American", a)], "Australian", au, [].
        eexists _, _. repeat split; [repeat constructor; simpl; lia .. | exact Hspec].
    + destruct (Z.leb_spec au a) as [Haua|Haua].
      * exists [("British", b)], "American", a, [("Australian", au)].
        eexists _, _. repeat split; [repeat constructor; simpl; lia .. | exact Hspec].
      * exists [("British", b); ("American", a)], "Australian", au, [].
        eexists _, _. repeat split; [repeat constructor; simpl; lia .. | exact Hspec].
  - intros Heq. unfold scores_of. rewrite classifier_scores, Heq.
    split; vm_compute; reflexivity.
Qed.

Lemma tie_break_first_label_witness :
  simple_accent_classifier ascii_lower (lit "Color MATE")
    = Ok ("American", 50, "Detected keywords suggest American accent with confidence 50%.").
Proof.
  destruct (tie_break_first_label ascii_lower (lit "Color MATE")) as (_ & Hfirst & Hsample).
  assert (Hpos : 0 < sum_values (scores_of ascii_lower (lit "Color MATE")))
    by (vm_compute; reflexivity).
  destruct (Hfirst Hpos) as (_ & _ & _ & _ & _ & _ & _ & _ & _ & _).
  apply Hsample. vm_compute. reflexivity.
Defined.

(** * Properties of the pipeline *)

(** ** What a run does *)

Lemma remove_if_exists_run (var : option string) (fr : Frame) :
  remove_if_exists var fr =
    (Ok tt, mkFrame (video_file fr) (audio_file fr)
              (mkWorld (files (world fr) ∖ path_set var)
                       (open_clips (world fr)) (reported (world fr)))).
Proof.
  destruct fr as [v a [fs oc rp]]. unfold remove_if_exists, path_set.
  destruct var as [p|]; [destruct (truthy (Some p))|]; cbn.
  - unfold in_world, os_path_exists, os_remove, set_files, mbind, M_bind, bind, ret. cbn.
    case_bool_decide; cbn.
    + rewrite bool_decide_eq_true_2 by done. reflexivity.
    + do 3 f_equal. set_solver.
  - unfold ret. do 3 f_equal. set_solver.
  - unfold ret. do 3 f_equal. set_solver.
Qed.

Lemma finally_block_run (fr : Frame) :
  finally_block fr =
    (Ok tt, mkFrame (video_file fr) (audio_file fr)
              (mkWorld (files (world fr) ∖ (path_set (video_file fr) ∪ path_set (audio_file fr)))
                       (open_clips (world fr)) (reported (world fr)))).
Proof.
  unfold finally_block, get, mbind, M_bind, bind. cbn.
  rewrite remove_if_exists_run. cbn. rewrite remove_if_exists_run. cbn.
  do 3 f_equal. set_solver.
Qed.

Ltac unfold_stages :=
  unfold try_except, try_block, except_block, recorded_paths, run_stages,
    download_video, extract_audio, transcribe_audio, VideoFileClip, clip_close,
    in_world, external, st_error,
    set_video_file, set_audio_file, of_result, modify, raise, set_files,
    mbind, M_bind, bind, mret, M_ret, ret.

Lemma try_except_run (env : Env) (lower : str -> str) (url : str) (w : World) :
  exists v a,
    path_set v ∪ path_set a = recorded_paths env url w /\
    try_except (try_block env lower url) except_block (mkFrame None None w) =
      (Ok (output_of (fst (run_stages env lower url w))),
       mkFrame v a
         (mkWorld (files (snd (run_stages env lower url w)))
                  (open_clips (snd (run_stages env lower url w)))
                  (reported w ++ report_of (fst (run_stages env lower url w))))).
Proof.
  unfold_stages. cbn.
  destruct (ydl_download env url "downloaded_video.mp4" (files w)) as [fs0 [[]|e0]]; cbn.
  2: { exists None, None. split; [set_solver | reflexivity]. }
  destruct (clip_open env "downloaded_video.mp4" fs0) as [fs1 [au|e1]]; cbn.
  2: { exists (Some "downloaded_video.mp4"), None. split; [set_solver | reflexivity]. }
  destruct au; cbn.
  2: { exists (Some "downloaded_video.mp4"), None. split; [set_solver | reflexivity]. }
  destruct (write_audiofile env "downloaded_video.mp4" "audio.wav" fs1) as [fs2 [[]|e2]]; cbn.
  2: { exists (Some "downloaded_video.mp4"), None. split; [set_solver | reflexivity]. }
  exists (Some "downloaded_video.mp4"), (Some "audio.wav").
  split; [set_solver|].
  destruct (load_model env "base" fs2) as [fs3 [[]|e3]]; cbn; [|reflexivity].
  destruct (transcribe env "audio.wav" fs3) as [fs4 [t|e4]]; cbn; [|reflexivity].
  destruct (simple_accent_classifier lower t) as [[[ac co] ex]|e5]; cbn; [|reflexivity].
  by rewrite app_nil_r.
Qed.

(** A call of [process_video] always returns: with the output of the stages,
    the recorded paths removed and at most one message reported. *)
Lemma process_video_run (env : Env) (lower : str -> str) (url : str) (w : World) :
  process_video env lower url w =
    (Ok (output_of (fst (run_stages env lower url w))),
     mkWorld (files (snd (run_stages env lower url w)) ∖ recorded_paths env url w)
             (open_clips (snd (run_stages env lower url w)))
             (reported w ++ report_of (fst (run_stages env lower url w)))).
Proof.
  destruct (try_except_run env lower url w) as (v & a & Hrec & Hrun).
  unfold process_video, process_video_body, try_finally.
  rewrite Hrun, finally_block_run. cbn. by rewrite Hrec.
Qed.

Lemma stages_ok_recorded (env : Env) (lower : str -> str) (url : str) (w : World) :
  is_ok (fst (run_stages env lower url w)) ->
  recorded_paths env url w = {["downloaded_video.mp4"; "audio.wav"]}.
Proof.
  unfold run_stages, recorded_paths, mbind, M_bind, bind.
  destruct (download_video env url "downloaded_video.mp4" w) as [[v|e] w1] eqn:Hd;
    [|intros []].
  assert (v = "downloaded_video.mp4") as ->.
  { unfold download_video, external, mbind, M_bind, bind, ret in Hd.
    destruct (ydl_download env url "downloaded_video.mp4" (files w)) as [fs0 [[]|e0]];
      by inversion Hd. }
  destruct (extract_audio env "downloaded_video.mp4" "audio.wav" w1) as [[a|e] w2] eqn:He;
    [|intros []].
  assert (a = "audio.wav") as ->; [|done].
  unfold extract_audio, VideoFileClip, clip_close, external, modify, raise,
    mbind, M_bind, bind, ret in He. cbn in He.
  destruct (clip_open env "downloaded_video.mp4" (files w1)) as [fs1 [[]|e1]];
    cbn in He; try by inversion He.
  destruct (write_audiofile env "downloaded_video.mp4" "audio.wav" fs1) as [fs2 [[]|e2]];
    cbn in He; by inversion He.
Qed.

Lemma recorded_video (env : Env) (url : str) (w : World) :
  is_ok (fst (download_video env url "downloaded_video.mp4" w)) ->
  "downloaded_video.mp4" ∈ recorded_paths env url w.
Proof.
  unfold recorded_paths.
  destruct (download_video env url "downloaded_video.mp4" w) as [[v|e] w1] eqn:Hd;
    [|intros []].
  assert (v = "downloaded_video.mp4") as ->.
  { unfold download_video, external, mbind, M_bind, bind, ret in Hd.
    destruct (ydl_download env url "downloaded_video.mp4" (files w)) as [fs0 [[]|e0]];
      by inversion Hd. }
  intros _.
  destruct (extract_audio env "downloaded_video.mp4" "audio.wav" w1) as [[a|e] w2];
    set_solver.
Qed.

Lemma recorded_audio (env : Env) (url : str) (w : World) :
  is_ok (fst (download_video env url "downloaded_video.mp4" w)) ->
  is_ok (fst (extract_audio env "downloaded_video.mp4" "audio.wav"
                (snd (download_video env url "downloaded_video.mp4" w)))) ->
  "audio.wav" ∈ recorded_paths env url w.
Proof.
  unfold recorded_paths.
  destruct (download_video env url "downloaded_video.mp4" w) as [[v|e] w1] eqn:Hd;
    [|intros []].
  assert (v = "downloaded_video.mp4") as ->.
  { unfold download_video, external, mbind, M_bind, bind, ret in Hd.
    destruct (ydl_download env url "downloaded_video.mp4" (files w)) as [fs0 [[]|e0]];
      by inversion Hd. }
  intros _. cbn.
  destruct (extract_audio env "downloaded_video.mp4" "audio.wav" w1) as [[a|e] w2] eqn:He;
    [|intros []].
  assert (a = "audio.wav") as ->; [|set_solver].
  unfold extract_audio, VideoFileClip, clip_close, external, modify, raise,
    mbind, M_bind, bind, ret in He. cbn in He.
  destruct (clip_open env "downloaded_video.mp4" (files w1)) as [fs1 [[]|e1]];
    cbn in He; try by inversion He.
  destruct (write_audiofile env "downloaded_video.mp4" "audio.wav" fs1) as [fs2 [[]|e2]];
    cbn in He; by inversion He.
Qed.

(** ** The claims about the pipeline *)

(** X11: when [process_video] returns, no path that the run has recorded
    exists any more.  The video file's path is recorded once
    [download_video] has returned and the audio file's once [extract_audio]
    has returned, so after a run whose four stages all succeed neither file
    exists, and after a failure the files of the stages that had returned do
    not exist. *)
Theorem process_video_removes_recorded_files (env : Env) (lower : str -> str)
    (url : str) (w : World) :
  (forall p, p ∈ recorded_paths env url w ->
             p ∉ files (snd (process_video env lower url w))) /\
  (is_ok (fst (download_video env url "downloaded_video.mp4" w)) ->
   ("downloaded_video.mp4" ∉ files (snd (process_video env lower url w)))) /\
  (is_ok (fst (download_video env url "downloaded_video.mp4" w)) ->
   is_ok (fst (extract_audio env "downloaded_video.mp4" "audio.wav"
                 (snd (download_video env url "downloaded_video.mp4" w)))) ->
   ("audio.wav" ∉ files (snd (process_video env lower url w)))) /\
  (is_ok (fst (run_stages env lower url w)) ->
   ("downloaded_video.mp4" ∉ files (snd (process_video env lower url w))) /\
   "audio.wav" ∉ files (snd (process_video env lower url w))).
Proof.
  assert (Hrec : forall p, p ∈ recorded_paths env url w ->
                           p ∉ files (snd (process_video env lower url w))).
  { intros p Hp. rewrite process_video_run. cbn. set_solver. }
  split; [exact Hrec|]. split; [|split].
  - intros Hd. by apply Hrec, recorded_video.
  - intros Hd He. by apply Hrec, recorded_audio.
  - intros Hok. apply (stages_ok_recorded env lower url w) in Hok.
    split; apply Hrec; rewrite Hok; set_solver.
Qed.

Lemma process_video_removes_recorded_files_witness :
  ("downloaded_video.mp4" ∉
    files (snd (process_video (env_ok (lit "G'day mate")) ascii_lower sample_url empty_world))) /\
  "audio.wav" ∉
    files (snd (process_video (env_ok (lit "G'day mate")) ascii_lower sample_url empty_world)).
Proof.
  apply (process_video_removes_recorded_files (env_ok (lit "G'day mate")) ascii_lower
           sample_url empty_world).
  vm_compute. exact I.
Defined.

(** C3: the run that breaks it.  The audio writer creates "audio.wav" and
    then raises, so [extract_audio] does not return, the variable
    [audio_file] stays [None], and the file, absent before the run and
    created during it, is still there when [process_video] has returned. *)
Lemma partial_audio_file_is_left_behind :
  ("audio.wav" ∉ files empty_world) /\
  extract_audio env_partial_audio "downloaded_video.mp4" "audio.wav"
      (snd (download_video env_partial_audio sample_url "downloaded_video.mp4" empty_world))
    = (Raise (LibraryError "error while writing audio.wav"),
       mkWorld {["audio.wav"; "downloaded_video.mp4"]} ["downloaded_video.mp4"] []) /\
  fst (process_video env_partial_audio ascii_lower sample_url empty_world)
    = Ok (None, None, None, None) /\
  reported (snd (process_video env_partial_audio ascii_lower sample_url empty_world))
    = ["Error: error while writing audio.wav"] /\
  "audio.wav" ∈ files (snd (process_video env_partial_audio ascii_lower sample_url empty_world)).
Proof.
  split; [|split; [|split; [|split]]].
  - cbn. set_solver.
  - cbn. do 2 f_equal; set_solver.
  - rewrite process_video_run. reflexivity.
  - rewrite process_video_run. reflexivity.
  - rewrite process_video_run. cbn. set_solver.
Qed.

(** C4: a call of [process_video] returns, and it returns one of two things.
    When the four stages all complete, it returns the transcript with the
    label, confidence and explanation that the classifier gives for it, and
    reports nothing.  When a stage raises, it returns four [None]s and
    reports the one message "Error: " followed by the exception's text.  No
    output has some values present and others absent. *)
Theorem process_video_all_or_nothing (env : Env) (lower : str -> str)
    (url : str) (w : World) :
  match fst (run_stages env lower url w) with
  | Ok (transcription, (accent, confidence, explanation)) =>
      simple_accent_classifier lower transcription = Ok (accent, confidence, explanation) /\
      fst (process_video env lower url w)
        = Ok (Some transcription, Some accent, Some confidence, Some explanation) /\
      reported (snd (process_video env lower url w)) = reported w
  | Raise e =>
      fst (process_video env lower url w) = Ok (None, None, None, None) /\
      reported (snd (process_video env lower url w))
        = reported w ++ ["Error: " +:+ exn_message e]
  end /\
  exists o1 o2 o3 o4,
    fst (process_video env lower url w) = Ok (o1, o2, o3, o4) /\
    (is_Some o1 /\ is_Some o2 /\ is_Some o3 /\ is_Some o4 \/
     o1 = None /\ o2 = None /\ o3 = None /\ o4 = None).
Proof.
  rewrite process_video_run. cbn [fst snd reported].
  destruct (fst (run_stages env lower url w)) as [[t [[ac co] ex]]|e] eqn:Hst.
  - split.
    + split; [|split; [reflexivity | apply app_nil_r]].
      revert Hst. unfold run_stages, of_result, mbind, M_bind, bind, mret, M_ret, ret.
      destruct (download_video env url "downloaded_video.mp4" w) as [[v|e] w1]; [|done].
      destruct (extract_audio env v "audio.wav" w1) as [[a|e] w2]; [|done].
      destruct (transcribe_audio env a w2) as [[t'|e] w3]; [|done].
      destruct (simple_accent_classifier lower t') as [r|e] eqn:Hc; [|done].
      cbn. intros Heq. injection Heq as -> ->. exact Hc.
    + exists (Some t), (Some ac), (Some co), (Some ex). split; [reflexivity|].
      left. repeat split; eauto.
  - split; [by split|].
    exists None, None, None, None. split; [reflexivity|]. by right.
Qed.

(** C5: when the container opens and has no audio stream, [extract_audio]
    closes the clip it opened and raises the error "No audio stream found in"
    followed by the video file's name; [process_video] then returns four
    [None]s, reports that message, leaves no clip open that was not open
    before, and the downloaded video file does not exist afterwards. *)
Theorem no_audio_stream_reported (env : Env) (lower : str -> str) :
  (forall video audio w fs1,
     clip_open env video (files w) = (fs1, Ok false) ->
     extract_audio env video audio w =
       (Raise (RuntimeError ("No audio stream found in " +:+ video)),
        mkWorld fs1 (open_clips w) (reported w))) /\
  (forall url w fs0 fs1,
     ydl_download env url "downloaded_video.mp4" (files w) = (fs0, Ok tt) ->
     clip_open env "downloaded_video.mp4" fs0 = (fs1, Ok false) ->
     fst (process_video env lower url w) = Ok (None, None, None, None) /\
     reported (snd (process_video env lower url w))
       = reported w ++ ["Error: No audio stream found in downloaded_video.mp4"] /\
     open_clips (snd (process_video env lower url w)) = open_clips w /\
     "downloaded_video.mp4" ∉ files (snd (process_video env lower url w))).
Proof.
  assert (Hextract : forall video audio w fs1,
     clip_open env video (files w) = (fs1, Ok false) ->
     extract_audio env video audio w =
       (Raise (RuntimeError ("No audio stream found in " +:+ video)),
        mkWorld fs1 (open_clips w) (reported w))).
  { intros video audio w fs1 Hopen.
    unfold extract_audio, VideoFileClip, clip_close, external, modify, raise, set_files,
      mbind, M_bind, bind, ret.
    rewrite Hopen. cbn. by rewrite String.eqb_refl. }
  split; [exact Hextract|].
  intros url w fs0 fs1 Hdl Hopen.
  assert (Hdown : download_video env url "downloaded_video.mp4" w
                  = (Ok "downloaded_video.mp4", mkWorld fs0 (open_clips w) (reported w))).
  { unfold download_video, external, set_files, mbind, M_bind, bind, ret.
    by rewrite Hdl. }
  assert (Hstages : run_stages env lower url w
                    = (Raise (RuntimeError "No audio stream found in downloaded_video.mp4"),
                       mkWorld fs1 (open_clips w) (reported w))).
  { unfold run_stages, mbind, M_bind, bind. rewrite Hdown.
    by rewrite (Hextract _ _ _ fs1). }
  assert (Hrec : recorded_paths env url w = {["downloaded_video.mp4"]}).
  { unfold recorded_paths. rewrite Hdown. by rewrite (Hextract _ _ _ fs1). }
  rewrite process_video_run, Hstages, Hrec. cbn.
  repeat split. set_solver.
Qed.

Lemma no_audio_stream_reported_witness :
  fst (process_video env_no_audio ascii_lower sample_url empty_world)
    = Ok (None, None, None, None) /\
  reported (snd (process_video env_no_audio ascii_lower sample_url empty_world))
    = reported empty_world ++ ["Error: No audio stream found in downloaded_video.mp4"] /\
  open_clips (snd (process_video env_no_audio ascii_lower sample_url empty_world))
    = open_clips empty_world /\
  "downloaded_video.mp4" ∉
    files (snd (process_video env_no_audio ascii_lower sample_url empty_world)).
Proof.
  apply (proj2 (no_audio_stream_reported env_no_audio ascii_lower) sample_url empty_world
           ({["downloaded_video.mp4"]} ∪ ∅) ({["downloaded_video.mp4"]} ∪ ∅));
    reflexivity.
Defined.

(** * Further properties of the classifier *)

Lemma startswith_length (w s : str) :
  startswith w s = true -> (length w <= length s)%nat.
Proof.
  intros H. apply startswith_spec in H as [post ->].
  rewrite length_app. lia.
Qed.

Lemma contains_length (w s : str) :
  contains w s = true -> (length w <= length s)%nat.
Proof.
  intros H. apply contains_spec in H as (pre & post & ->).
  rewrite !length_app. lia.
Qed.

Lemma occurs_extend (w s pre post : str) :
  occurs w s -> occurs w (pre ++ s ++ post).
Proof.
  intros (p & q & ->). exists (pre ++ p), (q ++ post).
  by rewrite <- !app_assoc.
Qed.

Lemma keywords_at_least_4 :
  Forall (fun w : str => (4 <= length w)%nat) all_keywords.
Proof. apply (bool_decide_unpack _). by vm_compute. Qed.

(** X1: the shape of every result.  Either it is the "No accent detected"
    triple, or the label is one of British, American and Australian, the
    confidence is between 33 and 100, and the explanation is the sentence
    built from that same label and confidence. *)
Theorem classifier_result_shape (lower : str -> str) (text : str) :
  simple_accent_classifier lower text
    = Ok ("No accent detected", 0, "No accent keywords detected in the transcription.") \/
  exists label confidence,
    In label ["British"; "American"; "Australian"] /\
    33 <= confidence <= 100 /\
    simple_accent_classifier lower text
      = Ok (label, confidence,
            "Detected keywords suggest " +:+ label +:+ " accent with confidence "
              +:+ str_of_int confidence +:+ "%.").
Proof.
  pose proof (classifier_spec lower text) as Hspec. cbv zeta in Hspec.
  pose proof (british_score_bounds (lower text)) as Hb.
  pose proof (american_score_bounds (lower text)) as Ha.
  pose proof (australian_score_bounds (lower text)) as Hau.
  set (b := keyword_score (lower text) british_keywords) in *.
  set (a := keyword_score (lower text) american_keywords) in *.
  set (au := keyword_score (lower text) australian_keywords) in *.
  destruct (Z.eqb_spec (b + a + au) 0) as [Hz|Hnz]; [by left|].
  right. exists (first_maximal_label b a au), (100 * Z.max b (Z.max a au) / (b + a + au)).
  split; [|split; [|exact Hspec]].
  - unfold first_maximal_label.
    destruct ((a <=? b) && (au <=? b)); [simpl; tauto|].
    destruct (au <=? a); simpl; tauto.
  - split.
    + apply Z.div_le_lower_bound; lia.
    + apply Z.div_le_upper_bound; lia.
Qed.

(** X2: with a positive total, the confidence is 100 exactly when every
    label other than the returned one has score 0. *)
Theorem confidence_100_iff_single_label (lower : str -> str) (text : str) :
  0 < sum_values (scores_of lower text) ->
  exists label confidence explanation,
    simple_accent_classifier lower text = Ok (label, confidence, explanation) /\
    (confidence = 100 <->
     Forall (fun kv => fst kv = label \/ snd kv = 0) (scores_of lower text)).
Proof.
  pose proof (classifier_spec lower text) as Hspec. cbv zeta in Hspec.
  unfold scores_of. rewrite sum_values_scores.
  pose proof (british_score_bounds (lower text)) as Hb.
  pose proof (american_score_bounds (lower text)) as Ha.
  pose proof (australian_score_bounds (lower text)) as Hau.
  set (b := keyword_score (lower text) british_keywords) in *.
  set (a := keyword_score (lower text) american_keywords) in *.
  set (au := keyword_score (lower text) australian_keywords) in *.
  intros Hpos.
  destruct (Z.eqb_spec (b + a + au) 0) as [Hz|_]; [lia|].
  eexists _, _, _. split; [exact Hspec|].
  assert (Hfull : 100 * Z.max b (Z.max a au) / (b + a + au) = 100
                  <-> Z.max b (Z.max a au) = b + a + au).
  { split.
    - intros Hc.
      destruct (Z.eq_dec (Z.max b (Z.max a au)) (b + a + au)) as [|Hne]; [done|].
      assert (Hlt : 100 * Z.max b (Z.max a au) / (b + a + au) < 100).
      { apply Z.div_lt_upper_bound; lia. }
      lia.
    - intros Hm. rewrite Hm. apply Z.div_mul. lia. }
  rewrite Hfull. unfold scores_dict, first_maximal_label.
  rewrite !Forall_cons, Forall_nil. simpl fst. simpl snd.
  destruct (Z.leb_spec a b) as [Hab|Hab], (Z.leb_spec au b) as [Haub|Haub],
    (Z.leb_spec au a) as [Haua|Haua]; simpl;
    (split;
     [ intros Hm; repeat split; first [by left | right; lia]
     | intros ([Hl1|Hs1] & [Hl2|Hs2] & [Hl3|Hs3] & _); try discriminate; lia ]).
Qed.

Lemma confidence_100_iff_single_label_witness :
  exists label confidence explanation,
    simple_accent_classifier ascii_lower (lit "The lorry carried biscuits.")
      = Ok (label, confidence, explanation) /\
    (confidence = 100 <->
     Forall (fun kv => fst kv = label \/ snd kv = 0)
            (scores_of ascii_lower (lit "The lorry carried biscuits."))).
Proof.
  apply (confidence_100_iff_single_label ascii_lower (lit "The lorry carried biscuits.")).
  vm_compute. reflexivity.
Defined.

(** X3: a transcript whose lower-cased form has fewer than four characters,
    the empty transcript among them, holds no keyword and gets the
    "No accent detected" triple. *)
Theorem short_transcript_no_accent (lower : str -> str) (text : str) :
  (length (lower text) < 4)%nat ->
  simple_accent_classifier lower text
    = Ok ("No accent detected", 0, "No accent keywords detected in the transcription.").
Proof.
  intros Hlen.
  assert (Hnone : Forall (fun w => ~ occurs w (lower text)) all_keywords).
  { pose proof keywords_at_least_4 as H4.
    rewrite Forall_forall in H4. apply Forall_forall. intros w Hw Hocc.
    apply contains_spec, contains_length in Hocc.
    specialize (H4 w Hw). simpl in H4. lia. }
  apply total_zero_iff in Hnone.
  unfold scores_of in Hnone. rewrite sum_values_scores in Hnone.
  pose proof (classifier_spec lower text) as Hspec. cbv zeta in Hspec.
  rewrite Hspec, Hnone. reflexivity.
Qed.

Lemma short_transcript_no_accent_witness :
  simple_accent_classifier ascii_lower []
    = Ok ("No accent detected", 0, "No accent keywords detected in the transcription.").
Proof.
  apply (short_transcript_no_accent ascii_lower []). simpl. lia.
Defined.

(** X4: matching is by substring, so text around a passage never lowers
    a score: a keyword found in a passage is found in any text that holds
    the passage, and each keyword list scores at least as much on the longer
    text. *)
Theorem keyword_score_monotone (passage pre post : str) (keywords : list str) :
  (forall w, contains w passage = true -> contains w (pre ++ passage ++ post) = true) /\
  keyword_score passage keywords <= keyword_score (pre ++ passage ++ post) keywords.
Proof.
  assert (Hext : forall w, contains w passage = true ->
                           contains w (pre ++ passage ++ post) = true).
  { intros w H. apply contains_spec. apply occurs_extend. by apply contains_spec. }
  split; [exact Hext|].
  induction keywords as [|w kws IH]; [done|].
  rewrite !keyword_score_cons.
  destruct (contains w passage) eqn:Hc.
  - rewrite (Hext w Hc). lia.
  - destruct (contains w (pre ++ passage ++ post)); lia.
Qed.

(** X5: no keyword of the three lists occurs inside another one, so a
    transcript that lower-cases to a single keyword scores for that keyword
    alone and gets its label with confidence 100. *)
Theorem keyword_alone_wins (lower : str -> str) (text : str)
    (label : string) (kws : list str) (w : str) :
  In (label, kws) lexicon -> In w kws -> lower text = w ->
  (forall w1 w2, In w1 all_keywords -> In w2 all_keywords -> occurs w1 w2 -> w1 = w2) /\
  simple_accent_classifier lower text
    = Ok (label, 100,
          "Detected keywords suggest " +:+ label +:+ " accent with confidence 100%.").
Proof.
  intros Hlabel Hw Heq. split.
  - assert (Hchk : forallb (fun w2 =>
               forallb (fun w1 => implb (contains w1 w2) (bool_decide (w1 = w2)))
                       all_keywords) all_keywords = true)
      by (vm_compute; reflexivity).
    rewrite forallb_forall in Hchk.
    intros w1 w2 H1 H2 Hocc. specialize (Hchk w2 H2).
    rewrite forallb_forall in Hchk. specialize (Hchk w1 H1).
    apply contains_spec in Hocc. rewrite Hocc in Hchk. simpl in Hchk.
    by apply bool_decide_eq_true in Hchk.
  - rewrite classifier_scores, Heq. clear Heq.
    unfold lexicon in Hlabel. simpl in Hlabel.
    destruct Hlabel as [H | [H | [H | []]]]; injection H as <- <-;
      simpl in Hw;
      repeat (destruct Hw as [<- | Hw]; [vm_compute; reflexivity|]);
      destruct Hw.
Qed.

Lemma keyword_alone_wins_witness :
  simple_accent_classifier ascii_lower (lit "ALUMINUM")
    = Ok ("American", 100, "Detected keywords suggest American accent with confidence 100%.").
Proof.
  apply (keyword_alone_wins ascii_lower (lit "ALUMINUM") "American" american_keywords
           (lit "aluminum")).
  - unfold lexicon. simpl. tauto.
  - vm_compute. tauto.
  - vm_compute. reflexivity.
Defined.

(** * Further properties of the pipeline *)

Ltac unfold_adapters :=
  unfold run_stages, download_video, extract_audio, transcribe_audio, VideoFileClip,
    clip_close, external, of_result, modify, raise, set_files,
    mbind, M_bind, bind, mret, M_ret, ret.

(** X6: [extract_audio] and the clip it opens.  When it returns, it returns
    the [audio_file] it was given and the clip is closed again.  When
    [write_audiofile] raises, the exception passes through and the clip of
    [video_file] stays open: [clip.close()] is not reached.  On every other
    exit the open clips are as before the call. *)
Theorem extract_audio_clip_balance (env : Env) (video audio : string) (w : World) :
  (forall a, fst (extract_audio env video audio w) = Ok a ->
             a = audio /\ open_clips (snd (extract_audio env video audio w)) = open_clips w) /\
  (forall fs1 fs2 e,
     clip_open env video (files w) = (fs1, Ok true) ->
     write_audiofile env video audio fs1 = (fs2, Raise e) ->
     extract_audio env video audio w
       = (Raise e, mkWorld fs2 (video :: open_clips w) (reported w))) /\
  (~ (exists fs1 fs2 e,
        clip_open env video (files w) = (fs1, Ok true) /\
        write_audiofile env video audio fs1 = (fs2, Raise e)) ->
   open_clips (snd (extract_audio env video audio w)) = open_clips w).
Proof.
  unfold_adapters.
  destruct (clip_open env video (files w)) as [fs1 [[]|e1]] eqn:Hopen; cbn.
  - destruct (write_audiofile env video audio fs1) as [fs2 [[]|e2]] eqn:Hwrite; cbn.
    + rewrite String.eqb_refl. split; [|split].
      * intros a [= <-]. by split.
      * intros fs1' fs2' e [= <-]. rewrite Hwrite. intros [=].
      * done.
    + split; [intros a [=]|]. split.
      * intros fs1' fs2' e [= <-]. rewrite Hwrite. by intros [= <- <-].
      * intros Hno. exfalso. apply Hno. by exists fs1, fs2, e2.
  - rewrite String.eqb_refl. split; [intros a [=]|]. split; [|done].
    intros fs1' fs2' e [=].
  - split; [intros a [=]|]. split; [|done].
    intros fs1' fs2' e [=].
Qed.

Lemma extract_audio_clip_balance_witness :
  extract_audio env_partial_audio "downloaded_video.mp4" "audio.wav" empty_world
    = (Raise (LibraryError "error while writing audio.wav"),
       mkWorld ({["audio.wav"]} ∪ ∅) ["downloaded_video.mp4"] []).
Proof.
  apply (proj1 (proj2 (extract_audio_clip_balance env_partial_audio
                         "downloaded_video.mp4" "audio.wav" empty_world))
           ∅ ({["audio.wav"]} ∪ ∅) (LibraryError "error while writing audio.wav"));
    reflexivity.
Defined.

Lemma run_stages_reported (env : Env) (lower : str -> str) (url : str) (w : World) :
  reported (snd (run_stages env lower url w)) = reported w.
Proof.
  unfold_adapters.
  destruct (ydl_download env url "downloaded_video.mp4" (files w)) as [fs0 [[]|e0]];
    cbn; [|done].
  destruct (clip_open env "downloaded_video.mp4" fs0) as [fs1 [[]|e1]]; cbn; [| |done].
  - destruct (write_audiofile env "downloaded_video.mp4" "audio.wav" fs1) as [fs2 [[]|e2]];
      cbn; [|done].
    destruct (load_model env "base" fs2) as [fs3 [[]|e3]]; cbn; [|done].
    destruct (transcribe env "audio.wav" fs3) as [fs4 [t|e4]]; cbn; [|done].
    by destruct (simple_accent_classifier lower t).
  - done.
Qed.

(** X7: the clips that a run of [process_video] leaves open.  When
    [write_audiofile] raises, the run returns four [None]s, reports the
    exception, and the clip of the downloaded video is still open after
    [process_video] has returned.  On every other run the open clips are the
    ones that were open before. *)
Theorem process_video_clip_balance (env : Env) (lower : str -> str)
    (url : str) (w : World) :
  (forall fs0 fs1 fs2 e,
     ydl_download env url "downloaded_video.mp4" (files w) = (fs0, Ok tt) ->
     clip_open env "downloaded_video.mp4" fs0 = (fs1, Ok true) ->
     write_audiofile env "downloaded_video.mp4" "audio.wav" fs1 = (fs2, Raise e) ->
     fst (process_video env lower url w) = Ok (None, None, None, None) /\
     reported (snd (process_video env lower url w))
       = reported w ++ ["Error: " +:+ exn_message e] /\
     open_clips (snd (process_video env lower url w))
       = "downloaded_video.mp4" :: open_clips w) /\
  (~ (exists fs0 fs1 fs2 e,
        ydl_download env url "downloaded_video.mp4" (files w) = (fs0, Ok tt) /\
        clip_open env "downloaded_video.mp4" fs0 = (fs1, Ok true) /\
        write_audiofile env "downloaded_video.mp4" "audio.wav" fs1 = (fs2, Raise e)) ->
   open_clips (snd (process_video env lower url w)) = open_clips w).
Proof.
  rewrite process_video_run. cbn [fst snd open_clips reported]. unfold_adapters.
  destruct (ydl_download env url "downloaded_video.mp4" (files w)) as [fs0 [[]|e0]]
    eqn:Hdl; cbn; [|split; [intros ? ? ? ? [=] | done]].
  destruct (clip_open env "downloaded_video.mp4" fs0) as [fs1 [[]|e1]] eqn:Hopen;
    cbn.
  - destruct (write_audiofile env "downloaded_video.mp4" "audio.wav" fs1)
      as [fs2 [[]|e2]] eqn:Hwrite; cbn.
    + split.
      * intros ? ? ? ? [= <-]. rewrite Hopen. intros [= <-]. rewrite Hwrite. intros [=].
      * intros _.
        destruct (load_model env "base" fs2) as [fs3 [[]|e3]]; cbn; [|done].
        destruct (transcribe env "audio.wav" fs3) as [fs4 [t|e4]]; cbn; [|done].
        by destruct (simple_accent_classifier lower t).
    + split.
      * intros ? ? ? ? [= <-]. rewrite Hopen. intros [= <-]. rewrite Hwrite.
        by intros [= <- <-].
      * intros Hno. exfalso. apply Hno. by exists fs0, fs1, fs2, e2.
  - split; [|done]. intros ? ? ? ? [= <-]. rewrite Hopen. intros [=].
  - split; [|done]. intros ? ? ? ? [= <-]. rewrite Hopen. intros [=].
Qed.

Lemma process_video_clip_balance_witness :
  fst (process_video env_partial_audio ascii_lower sample_url empty_world)
    = Ok (None, None, None, None) /\
  reported (snd (process_video env_partial_audio ascii_lower sample_url empty_world))
    = reported empty_world ++ ["Error: error while writing audio.wav"] /\
  open_clips (snd (process_video env_partial_audio ascii_lower sample_url empty_world))
    = "downloaded_video.mp4" :: open_clips empty_world.
Proof.
  apply (proj1 (process_video_clip_balance env_partial_audio ascii_lower sample_url
                  empty_world)
           ({["downloaded_video.mp4"]} ∪ ∅) ({["downloaded_video.mp4"]} ∪ ∅)
           ({["audio.wav"]} ∪ ({["downloaded_video.mp4"]} ∪ ∅))
           (LibraryError "error while writing audio.wav"));
    reflexivity.
Defined.




(** X9: a failed download ends the run at once.  No later library call is
    made: the files are the ones the download left, nothing is removed, no
    clip is opened, and the one message reported is the download's. *)
Theorem download_failure_aborts_run (env : Env) (lower : str -> str)
    (url : str) (w : World) (fs0 : gset string) (e : exn) :
  ydl_download env url "downloaded_video.mp4" (files w) = (fs0, Raise e) ->
  process_video env lower url w
    = (Ok (None, None, None, None),
       mkWorld fs0 (open_clips w) (reported w ++ ["Error: " +:+ exn_message e])).
Proof.
  intros Hdl. rewrite process_video_run.
  assert (Hrun : run_stages env lower url w
                 = (Raise e, mkWorld fs0 (open_clips w) (reported w))).
  { unfold_adapters. by rewrite Hdl. }
  assert (Hrec : recorded_paths env url w = ∅).
  { unfold recorded_paths. unfold_adapters. by rewrite Hdl. }
  rewrite Hrun, Hrec. cbn. do 2 f_equal. set_solver.
Qed.

Lemma download_failure_aborts_run_witness :
  process_video env_download_fails ascii_lower sample_url empty_world
    = (Ok (None, None, None, None),
       mkWorld ∅ [] ["Error: ERROR: Unsupported URL"]).
Proof.
  apply (download_failure_aborts_run env_download_fails ascii_lower sample_url
           empty_world ∅ (LibraryError "ERROR: Unsupported URL")).
  reflexivity.
Defined.

(** X10: the three adapters report nothing themselves.  Whatever the
    libraries do, the messages given to [st.error] are the same after
    [download_video], [extract_audio], [transcribe_audio] and the four stages
    in sequence as before; [download_video] and [transcribe_audio] also leave
    the open clips alone, and [download_video] returns the [out_file] it was
    given whenever it returns. *)
Theorem adapters_report_nothing (env : Env) (lower : str -> str) (url : str)
    (out video audio : string) (w : World) :
  reported (snd (download_video env url out w)) = reported w /\
  open_clips (snd (download_video env url out w)) = open_clips w /\
  (forall v, fst (download_video env url out w) = Ok v -> v = out) /\
  reported (snd (extract_audio env video audio w)) = reported w /\
  reported (snd (transcribe_audio env audio w)) = reported w /\
  open_clips (snd (transcribe_audio env audio w)) = open_clips w /\
  reported (snd (run_stages env lower url w)) = reported w.
Proof.
  split; [|split; [|split; [|split; [|split; [|split]]]]];
    try apply run_stages_reported; unfold_adapters.
  - by destruct (ydl_download env url out (files w)) as [fs0 [[]|e0]].
  - by destruct (ydl_download env url out (files w)) as [fs0 [[]|e0]].
  - destruct (ydl_download env url out (files w)) as [fs0 [[]|e0]]; cbn;
      intros v [=]; done.
  - destruct (clip_open env video (files w)) as [fs1 [[]|e1]]; cbn; [| done | done].
    by destruct (write_audiofile env video audio fs1) as [fs2 [[]|e2]].
  - destruct (load_model env "base" (files w)) as [fs3 [[]|e3]]; cbn; [|done].
    by destruct (transcribe env audio fs3) as [fs4 [t|e4]].
  - destruct (load_model env "base" (files w)) as [fs3 [[]|e3]]; cbn; [|done].
    by destruct (transcribe env audio fs3) as [fs4 [t|e4]].
Qed.

(** * Properties of the page script *)

Lemma lstrip_nil_iff (is_space : N -> bool) (s : str) :
  lstrip is_space s = [] <-> forallb is_space s = true.
Proof.
  induction s as [|c s IH]; simpl; [done|].
  destruct (is_space c); simpl; [exact IH | done].
Qed.

Lemma lstrip_all_space (is_space : N -> bool) (s : str) :
  forallb is_space (lstrip is_space s) = true -> lstrip is_space s = [].
Proof.
  induction s as [|c s IH]; simpl; [done|].
  destruct (is_space c) eqn:Hc; [exact IH|].
  simpl. by rewrite Hc.
Qed.

Lemma forallb_rev {A} (f : A -> bool) (l : list A) :
  forallb f (rev l) = forallb f l.
Proof.
  induction l as [|x l IH]; simpl; [done|].
  rewrite forallb_app, IH. simpl. rewrite andb_true_r. apply andb_comm.
Qed.

(** [s.strip()] is empty exactly when [s] is white space throughout. *)
Lemma strip_empty_iff (is_space : N -> bool) (s : str) :
  is_empty (strip is_space s) = true <-> forallb is_space s = true.
Proof.
  unfold strip. split.
  - intros H.
    assert (Hnil : rev (lstrip is_space (rev (lstrip is_space s))) = [])
      by (by destruct (rev _)).
    apply (f_equal (@rev N)) in Hnil. rewrite rev_involutive in Hnil. simpl in Hnil.
    apply lstrip_nil_iff in Hnil. rewrite forallb_rev in Hnil.
    apply lstrip_all_space in Hnil. by apply lstrip_nil_iff.
  - intros H. apply lstrip_nil_iff in H. by rewrite H.
Qed.

Ltac unfold_script :=
  unfold app_script, render, in_page, modify, mbind, M_bind, bind, mret, M_ret, ret.

(** X12: the script starts the pipeline only for a pressed button and a
    URL that is not blank.  With the button not pressed, or with a URL that
    is empty or white space throughout, the world behind the page is left as
    it was, whatever the libraries would do; the page gets its three
    widgets, and after a press the warning as well. *)
Theorem script_skips_pipeline (env : Env) (lower : str -> str) (is_space : N -> bool)
    (video_url : str) (pressed : bool) (pg : Page) :
  pressed = false \/ forallb is_space video_url = true ->
  app_script env lower is_space video_url pressed pg
    = (Ok tt,
       mkPage (page_world pg)
              (rendered pg ++ page_head ++
               if pressed then [Warning "Please enter a valid YouTube video URL."]
               else [])).
Proof.
  intros Hskip. unfold_script. cbn.
  destruct pressed.
  - destruct Hskip as [|Hblank]; [done|].
    apply strip_empty_iff in Hblank. rewrite Hblank. cbn.
    by rewrite <- !app_assoc.
  - cbn. by rewrite <- !app_assoc.
Qed.

Lemma script_skips_pipeline_witness :
  app_script (env_ok (lit "mate")) ascii_lower ascii_space (lit "   ") true empty_page
    = (Ok tt,
       mkPage empty_world
              (page_head ++ [Warning "Please enter a valid YouTube video URL."])).
Proof.
  apply (script_skips_pipeline (env_ok (lit "mate")) ascii_lower ascii_space
           (lit "   ") true empty_page).
  right. vm_compute. reflexivity.
Defined.

(** X13: after a press with a URL that is not blank, the script runs
    [process_video] once on the URL as typed.  When the four stages
    completed, the page shows, after the spinner, the transcription, the
    label, the confidence followed by a percent sign, and the explanation.
    When a stage raised, the page shows after the spinner the error box with
    "Error: " and the exception's text, and no result section. *)
Theorem script_shows_results (env : Env) (lower : str -> str) (is_space : N -> bool)
    (video_url : str) (pg : Page) :
  forallb is_space video_url = false ->
  app_script env lower is_space video_url true pg
    = (Ok tt,
       mkPage (snd (process_video env lower video_url (page_world pg)))
              (rendered pg ++ page_head ++
               [Spinner "Processing... This may take a few minutes depending on video length and model speed."] ++
               match fst (run_stages env lower video_url (page_world pg)) with
               | Ok (transcription, (accent, confidence, explanation)) =>
                   [Subheader "Transcription:";
                    WriteText transcription;
                    Subheader "Accent Detection Result:";
                    WriteMarkdown ("**Accent:** " +:+ accent);
                    WriteMarkdown ("**Confidence:** " +:+ str_of_int confidence +:+ "%");
                    WriteMarkdown ("**Explanation:** " +:+ explanation)]
               | Raise e => [ErrorBox ("Error: " +:+ exn_message e)]
               end)).
Proof.
  intros Hurl. unfold_script. cbn.
  assert (Hne : is_empty (strip is_space video_url) = false).
  { destruct (is_empty (strip is_space video_url)) eqn:E; [|done].
    apply strip_empty_iff in E. congruence. }
  rewrite Hne. cbn. rewrite process_video_run. cbn [reported].
  rewrite drop_app_length.
  destruct (fst (run_stages env lower video_url (page_world pg)))
    as [[t [[ac co] ex]]|e]; cbn;
    rewrite <- ?app_assoc; cbn; by rewrite ?app_nil_r.
Qed.

Lemma script_shows_results_witness :
  rendered (snd (app_script (env_ok (lit "G'day mate")) ascii_lower ascii_space
                   sample_url true empty_page))
    = page_head ++
      [Spinner "Processing... This may take a few minutes depending on video length and model speed.";
       Subheader "Transcription:";
       WriteText (lit "G'day mate");
       Subheader "Accent Detection Result:";
       WriteMarkdown "**Accent:** Australian";
       WriteMarkdown "**Confidence:** 100%";
       WriteMarkdown "**Explanation:** Detected keywords suggest Australian accent with confidence 100%."] /\
  rendered (snd (app_script env_download_fails ascii_lower ascii_space
                   sample_url true empty_page))
    = page_head ++
      [Spinner "Processing... This may take a few minutes depending on video length and model speed.";
       ErrorBox "Error: ERROR: Unsupported URL"].
Proof.
  assert (Hurl : forallb ascii_space sample_url = false) by (vm_compute; reflexivity).
  rewrite (script_shows_results (env_ok (lit "G'day mate")) ascii_lower ascii_space
             sample_url empty_page Hurl).
  rewrite (script_shows_results env_download_fails ascii_lower ascii_space
             sample_url empty_page Hurl).
  split; reflexivity.
Defined.
